(** * Robot order pipeline ([tasks.py]): shallow embedding and verification

    [tasks.py] is a linear script around four third-party libraries
    (requests/pandas, the robocorp browser, RPA.PDF, RPA.Archive) and the local
    file system.  The embedding is a state-and-exception monad over a [world]
    (file system and chronological trace of external calls); everything the
    outside decides (HTTP status, parsed rows, page content, failures of
    external calls, the interpreter's recursion limit) is read from an
    environment [env] as a function of the history so far. *)

From stdpp Require Import gmap strings list fin_maps pretty.
From Stdlib Require Import ZArith Ascii Lia.

(** ** Python values and exceptions *)

(** A cell of a [pandas] row as the script uses it: [pd.read_csv] yields
    integers for numeric columns and strings otherwise. *)
Inductive pyval :=
| PyInt (z : Z)
| PyStr (s : string).

(** [str(v)], which is also what an f-string placeholder inserts. *)
Definition py_str (v : pyval) : string :=
  match v with
  | PyInt z => pretty z
  | PyStr s => s
  end.

(** One order: the columns the form driver reads. *)
Record order_row := {
  Head : pyval;
  Body : pyval;
  Legs : pyval;
  Address : string
}.

(** What the parameter [row] of [click_order_button_with_retry] is bound to:
    Python does not check the annotation [pd.Series], and the function's own
    recursive call binds an integer there. *)
Inductive row_arg :=
| RowSeries (r : order_row)
| RowInt (n : Z).

Inductive exn :=
| RecursionError
| HTTPError (status : Z)
| ValueError (msg : string)
| OSError (path : string)
| ExternalError (what : string).

Inductive result (A : Type) :=
| Ok (a : A)
| Raise (e : exn).
Arguments Ok {A} a.
Arguments Raise {A} e.

(** ** Log records, external calls, file system *)

Inductive level := INFO | ERROR.

Inductive log_record :=
| FailedClick (row : row_arg)
| ReceiptSaved (order_number : string)
| ReceiptsArchived
| TempCleaned
| CleanupFailed (e : exn).

Inductive event :=
| HttpGet (url : string)
| ReadCsv
| Makedirs (path : string)
| Goto (url : string)
| Click (selector : string)
| SelectOption (selector value : string)
| CheckRadio (selector : string)
| Fill (selector value : string)
| IsVisible (selector : string)
| TextContent (selector : string)
| InnerHtml (selector : string)
| Screenshot (selector path : string)
| ClosePage
| HtmlToPdf (html path : string)
| AddWatermark (image_path source_path output_path : string)
| ArchiveFolder (folder archive_name : string) (recursive : bool) (include : string)
| Rmtree (path : string)
| Log (lvl : level) (r : log_record).

Inductive file_data :=
| PngOf (selector : string)
| PdfOf (html : string)
| PdfStamped (source_path image_path : string)
| ZipOf (members : list string).

Inductive node :=
| Dir
| File (d : file_data).

(** The file system is a finite map from path strings to nodes; the content
    of a directory [d] is the set of keys that extend [d/]. *)
Record world := {
  fs : gmap string node;
  trace : list event
}.

(** The outside world.  [faults], [visible] and [text] are asked with the
    history that ends with the call being answered.  [zip_fault] is asked
    once the archive has been opened: [Some (i, x)] says that adding member
    number [i] (from 0) fails with [x]. *)
Record env := {
  recursion_limit : nat;
  faults : list event -> option exn;
  http_status : Z;
  csv_rows : list order_row;
  visible : list event -> bool;
  text : list event -> string;
  zip_fault : list event -> option (nat * exn)
}.

#[global] Instance pyval_eq_dec : EqDecision pyval.
Proof. solve_decision. Defined.
#[global] Instance order_row_eq_dec : EqDecision order_row.
Proof. solve_decision. Defined.
#[global] Instance row_arg_eq_dec : EqDecision row_arg.
Proof. solve_decision. Defined.
#[global] Instance exn_eq_dec : EqDecision exn.
Proof. solve_decision. Defined.
#[global] Instance level_eq_dec : EqDecision level.
Proof. solve_decision. Defined.
#[global] Instance log_record_eq_dec : EqDecision log_record.
Proof. solve_decision. Defined.
#[global] Instance event_eq_dec : EqDecision event.
Proof. solve_decision. Defined.

(** ** Paths and [fnmatch] *)

Definition slash : ascii := "/"%char.

(** [under d p]: [p] lies strictly below directory [d]. *)
Definition under (d p : string) : bool := String.prefix (d +:+ "/") p.

(** Last component of a path ([os.path.basename]). *)
Fixpoint basename_from (acc p : string) : string :=
  match p with
  | EmptyString => acc
  | String c rest =>
      if Ascii.eqb c slash then basename_from "" rest
      else basename_from (acc +:+ String c "") rest
  end.
Definition basename (p : string) : string := basename_from "" p.

(** The path itself and its proper ancestors, outermost first, as
    [os.makedirs] visits them. *)
Fixpoint dir_chain_from (acc p : string) : list string :=
  match p with
  | EmptyString => [acc]
  | String c rest =>
      if Ascii.eqb c slash then acc :: dir_chain_from (acc +:+ "/") rest
      else dir_chain_from (acc +:+ String c "") rest
  end.
Definition dir_chain (p : string) : list string := dir_chain_from "" p.

(** The element before the last one. *)
Fixpoint before_last {A} (l : list A) : option A :=
  match l with
  | [] => None
  | a :: rest =>
      match rest with
      | [] => None
      | [_] => Some a
      | _ => before_last rest
      end
  end.

(** The directory a path lies in, if the path names one. *)
Definition parent_dir (p : string) : option string := before_last (dir_chain p).

(** Each element of a chain, with the path [os.makedirs] names when that
    element turns out to be a regular file: the next element ([mkdir] of the
    child fails), or the element itself when it is the last. *)
Fixpoint with_blame (l : list string) : list (string * string) :=
  match l with
  | [] => []
  | q :: rest =>
      (match rest with [] => q | q' :: _ => q' end, q) :: with_blame rest
  end.

(** [fnmatch.fnmatchcase] for patterns built from literal characters, [*]
    and [?] (bracket classes do not occur in the script's pattern). *)
Fixpoint fnmatch (pat name : string) : bool :=
  match pat with
  | EmptyString => match name with EmptyString => true | _ => false end
  | String c pat' =>
      if Ascii.eqb c "*"%char then
        (fix star (s : string) : bool :=
           fnmatch pat' s ||
           match s with
           | EmptyString => false
           | String _ s' => star s'
           end) name
      else
        match name with
        | EmptyString => false
        | String d name' =>
            (Ascii.eqb c "?"%char || Ascii.eqb c d) && fnmatch pat' name'
        end
  end.

Fixpoint has_slash (s : string) : bool :=
  match s with
  | EmptyString => false
  | String c rest => Ascii.eqb c slash || has_slash rest
  end.

Fixpoint string_drop (n : nat) (s : string) : string :=
  match n, s with
  | O, _ => s
  | S n', String _ rest => string_drop n' rest
  | S _, EmptyString => EmptyString
  end.

(** What [shutil.rmtree(path)] leaves of a file system. *)
Definition without_tree (path : string) (f : gmap string node) : gmap string node :=
  filter (λ kv, ¬ (kv.1 = path ∨ under path kv.1 = true)) f.

(** ** The monad *)

Definition M (A : Type) : Type := world -> result A * world.

#[global] Instance M_ret : MRet M := λ A a w, (Ok a, w).
#[global] Instance M_bind : MBind M := λ A B f m w,
  match m w with
  | (Ok a, w') => f a w'
  | (Raise e, w') => (Raise e, w')
  end.

Definition raise {A} (e : exn) : M A := λ w, (Raise e, w).

(** The world after the calls [t] have been recorded. *)
Definition extend (w : world) (t : list event) : world :=
  {| fs := fs w; trace := trace w ++ t |}.

Definition emit (e : event) : M unit := λ w, (Ok tt, extend w [e]).

Definition history : M (list event) := λ w, (Ok (trace w), w).

Definition get_fs : M (gmap string node) := λ w, (Ok (fs w), w).

Definition with_fs (f : gmap string node) (w : world) : world :=
  {| fs := f; trace := trace w |}.

Definition put_fs (f : gmap string node) : M unit := λ w, (Ok tt, with_fs f w).

(** [try: body finally: final]: [final] always runs; an exception of
    [final] replaces the outcome of [body]. *)
Definition try_finally {A} (body : M A) (final : M unit) : M A :=
  λ w,
    let '(r, w1) := body w in
    match final w1 with
    | (Ok _, w2) => (r, w2)
    | (Raise e, w2) => (Raise e, w2)
    end.

(** [try: body except Exception as e: handler e]: every member of [exn] is
    a subclass of [Exception]. *)
Definition try_except {A} (body : M A) (handler : exn -> M A) : M A :=
  λ w,
    match body w with
    | (Ok a, w1) => (Ok a, w1)
    | (Raise e, w1) => handler e w1
    end.

Fixpoint for_each {A} (l : list A) (body : A -> M unit) : M unit :=
  match l with
  | [] => mret tt
  | x :: rest => body x;; for_each rest body
  end.

(** ** The libraries the script calls *)

Section Libraries.
Context (E : env).

(** A call that leaves the process: it is recorded, then the environment
    says whether it raises. *)
Definition external (e : event) : M unit :=
  emit e;;
  h ← history;
  match faults E h with
  | Some x => raise x
  | None => mret tt
  end.

Definition log (lvl : level) (r : log_record) : M unit := emit (Log lvl r).

(** [requests.get(url)]: the status code of the response. *)
Definition requests_get (url : string) : M Z :=
  external (HttpGet url);;
  mret (http_status E).

(** [Response.raise_for_status()]: [HTTPError] for 4xx and 5xx. *)
Definition raise_for_status (status : Z) : M unit :=
  if ((400 <=? status) && (status <? 600))%Z then raise (HTTPError status)
  else mret tt.

(** [pd.read_csv(BytesIO(response.content))]. *)
Definition read_csv : M (list order_row) :=
  external ReadCsv;;
  mret (csv_rows E).

(** Creating one directory of a chain with [exist_ok=True]: a file in the
    way is an error, reported for the path [blame]. *)
Definition mkdir_exist_ok (blame p : string) : M unit :=
  f ← get_fs;
  match f !! p with
  | Some (File _) => raise (OSError blame)
  | _ => put_fs (<[p := Dir]> f)
  end.

(** [os.makedirs(path, exist_ok=True)]. *)
Definition makedirs (path : string) : M unit :=
  external (Makedirs path);;
  for_each (with_blame (dir_chain path)) (λ bq, mkdir_exist_ok bq.1 bq.2).

(** [os.path.exists(path)]: never raises. *)
Definition path_exists (path : string) : M bool :=
  f ← get_fs;
  mret (bool_decide (is_Some (f !! path))).

(** [shutil.rmtree(path)]: the root and everything below it go; a failure
    (also a root that is missing or not a directory) raises and leaves the
    root in place. *)
Definition rmtree (path : string) : M unit :=
  external (Rmtree path);;
  f ← get_fs;
  match f !! path with
  | Some Dir => put_fs (without_tree path f)
  | _ => raise (OSError path)
  end.

(** Writing a regular file whose directory is there: the script writes its
    images and PDFs into the directories [os.makedirs] has made at the head
    of the same pass.  The ZIP, whose directory nothing in the script
    makes, is opened with [create_file] below. *)
Definition write_file (path : string) (d : file_data) : M unit :=
  f ← get_fs;
  match f !! path with
  | Some Dir => raise (OSError path)
  | _ => put_fs (<[path := File d]> f)
  end.

Definition browser_goto (url : string) : M unit := external (Goto url).
Definition page_click (selector : string) : M unit := external (Click selector).
Definition page_select_option (selector value : string) : M unit :=
  external (SelectOption selector value).
Definition page_check (selector : string) : M unit :=
  external (CheckRadio selector).
Definition page_fill (selector value : string) : M unit :=
  external (Fill selector value).
Definition page_close : M unit := external ClosePage.

(** [page.locator(selector).is_visible()]. *)
Definition locator_is_visible (selector : string) : M bool :=
  external (IsVisible selector);;
  h ← history;
  mret (visible E h).

(** [page.text_content(selector)]. *)
Definition page_text_content (selector : string) : M string :=
  external (TextContent selector);;
  h ← history;
  mret (text E h).

(** [page.locator(selector).inner_html()]. *)
Definition locator_inner_html (selector : string) : M string :=
  external (InnerHtml selector);;
  h ← history;
  mret (text E h).

(** [page.locator(selector).screenshot(path=path)]. *)
Definition locator_screenshot (selector path : string) : M unit :=
  external (Screenshot selector path);;
  write_file path (PngOf selector).

(** [PDF().html_to_pdf(html, path)]. *)
Definition html_to_pdf (html path : string) : M unit :=
  external (HtmlToPdf html path);;
  write_file path (PdfOf html).

(** [PDF().add_watermark_image_to_pdf(...)]: reads the source PDF and the
    image, writes the stamped copy. *)
Definition add_watermark_image_to_pdf
    (image_path source_path output_path : string) : M unit :=
  external (AddWatermark image_path source_path output_path);;
  f ← get_fs;
  match f !! source_path, f !! image_path with
  | Some (File _), Some (File _) =>
      write_file output_path (PdfStamped source_path image_path)
  | Some (File _), _ => raise (OSError image_path)
  | _, _ => raise (OSError source_path)
  end.

(** Is the entry one that [RPA.Archive] lists for [folder]: a regular file
    below it (directly below unless [recursive]) whose name matches
    [include]. *)
Definition is_listed (folder : string) (recursive : bool) (include : string)
    (kv : string * node) : bool :=
  match kv.2 with
  | Dir => false
  | File _ =>
      under folder kv.1
      && (recursive || negb (has_slash (string_drop (String.length folder + 1) kv.1)))
      && fnmatch include (basename kv.1)
  end.

Definition list_files_in_directory (f : gmap string node)
    (folder : string) (recursive : bool) (include : string) : list string :=
  (filter (λ kv, is_listed folder recursive include kv) (map_to_list f)).*1.

(** Can [path] be opened for writing: its directory is there and it is not
    a directory itself. *)
Definition can_create (f : gmap string node) (path : string) : bool :=
  match parent_dir path with
  | Some dir => match f !! dir with Some Dir => true | _ => false end
  | None => true
  end
  && match f !! path with Some Dir => false | _ => true end.

(** [open(path, "w")] and the like: the file is created or truncated. *)
Definition create_file (path : string) (d : file_data) : M unit :=
  f ← get_fs;
  if can_create f path then put_fs (<[path := File d]> f)
  else raise (OSError path).

(** What adding the members leaves in the archive, and the exception it
    ends with, if any. *)
Definition zip_outcome (fault : option (nat * exn)) (filelist : list string)
    : list string * option exn :=
  match fault with
  | Some (i, x) =>
      if decide (i < List.length filelist) then (take i filelist, Some x)
      else (filelist, None)
  | None => (filelist, None)
  end.

(** [Archive().archive_folder_with_zip(folder, archive_name, recursive,
    include)]: an empty file list is refused; then the target is opened in
    mode ["w"] and the files are added one by one, so that a failure while
    adding leaves the members added so far.  A member of the archive is
    identified by the path of the file it stores. *)
Definition archive_folder_with_zip (folder archive_name : string)
    (recursive : bool) (include : string) : M unit :=
  external (ArchiveFolder folder archive_name recursive include);;
  f ← get_fs;
  match list_files_in_directory f folder recursive include with
  | [] => raise (ValueError "No files found to archive")
  | filelist =>
      create_file archive_name (ZipOf []);;
      h ← history;
      write_file archive_name (ZipOf (zip_outcome (zip_fault E h) filelist).1);;
      match (zip_outcome (zip_fault E h) filelist).2 with
      | Some x => raise x
      | None => mret tt
      end
  end.

End Libraries.

(** ** The script *)

Definition ORDER_URL : string := "https://robotsparebinindustries.com/#/robot-order".
Definition CSV_URL : string := "https://robotsparebinindustries.com/orders.csv".
Definition MAX_RETRIES : Z := 3.

Definition order_button : string := "//button[@id='order']".
Definition danger_alert : string := "//div[@class='alert alert-danger']".
Definition success_badge : string := "//p[@class='badge badge-success']".

Section Tasks.
Context (E : env).

Definition archive_receipts : M unit :=
  archive_folder_with_zip E "temp/receipts" "output/receipts.zip" true "*.pdf";;
  log INFO ReceiptsArchived.

(** One activation of [click_order_button_with_retry], up to its
    recursive call: [Some (row', count')] are the arguments that call
    binds, [None] is a return.  The call in the source is
    [click_order_button_with_retry(count + 1)]: one positional argument,
    so [row] receives [count + 1] and [count] its default [0]. *)
Definition click_order_button_activation (row : row_arg) (count : Z)
    : M (option (row_arg * Z)) :=
  page_click E order_button;;
  if decide (count > MAX_RETRIES)%Z then
    log ERROR (FailedClick row);;
    mret None
  else
    v ← locator_is_visible E danger_alert;
    if v : bool then mret (Some (RowInt (count + 1), 0%Z))
    else mret None.

(** [depth] is the number of frames the interpreter still grants; Python
    raises [RecursionError] when there is none left. *)
Fixpoint click_order_button_with_retry (depth : nat) (row : row_arg)
    (count : Z) : M unit :=
  match depth with
  | O => raise RecursionError
  | S depth' =>
      next ← click_order_button_activation row count;
      match next with
      | Some (row', count') => click_order_button_with_retry depth' row' count'
      | None => mret tt
      end
  end.

Definition fill_the_form_for_one_order (row : order_row) : M string :=
  page_select_option E "//select[@id='head']" (py_str (Head row));;
  page_check E ("//input[@id='id-body-" +:+ py_str (Body row) +:+ "']");;
  page_fill E "//div[contains(label, 'Legs')]//input" (py_str (Legs row));;
  page_fill E "//input[@id='address']" (Address row);;
  click_order_button_with_retry (recursion_limit E) (RowSeries row) 0;;
  page_text_content E success_badge.

Definition save_receipt_as_image (order_number : string) : M string :=
  let output_path := "temp/receipts_images/robot_" +:+ order_number +:+ ".png" in
  locator_screenshot E "//div[@id='robot-preview-image']" output_path;;
  mret output_path.

Definition store_receipt_as_pdf (order_number image_path : string) : M unit :=
  let pdf_path := "temp/receipts/receipt_" +:+ order_number +:+ ".pdf" in
  let pdf_path_with_robot_image :=
    "temp/receipts/receipt_" +:+ order_number +:+ "_with_robot_image.pdf" in
  receipt_html ← locator_inner_html E "//div[@id='receipt']";
  html_to_pdf E receipt_html pdf_path;;
  add_watermark_image_to_pdf E image_path pdf_path pdf_path_with_robot_image;;
  log INFO (ReceiptSaved order_number).

Definition close_annoying_modal : M unit :=
  page_click E "//button[@class='btn btn-dark']".

(** The body of the loop over [orders.iterrows()]. *)
Definition process_order (row : order_row) : M unit :=
  makedirs E "temp/receipts";;
  makedirs E "temp/receipts_images";;
  browser_goto E ORDER_URL;;
  close_annoying_modal;;
  order_number ← fill_the_form_for_one_order row;
  image_path ← save_receipt_as_image order_number;
  store_receipt_as_pdf order_number image_path;;
  page_close E.

Definition fill_the_form_and_store_receipts (orders : list order_row) : M unit :=
  for_each orders process_order.

Definition get_orders : M (list order_row) :=
  status ← requests_get E CSV_URL;
  raise_for_status status;;
  read_csv E.

Definition cleanup : M unit :=
  try_except
    (b ← path_exists "temp";
     if b : bool then rmtree E "temp";; log INFO TempCleaned
     else mret tt)
    (λ e, log ERROR (CleanupFailed e)).

(** The [try] block of the task. *)
Definition order_robots_body : M unit :=
  orders ← get_orders;
  fill_the_form_and_store_receipts orders;;
  archive_receipts.

Definition order_robots_from_RobotSpareBin : M unit :=
  try_finally order_robots_body cleanup.

End Tasks.

(** ** Observations on traces *)

(** Number of clicks on the Order button. *)
Definition submit_clicks (t : list event) : nat :=
  List.length (filter (λ e, e = Click order_button) t).

(** One round of the retry: the click and the look at the alert. *)
Definition retry_round : list event := [Click order_button; IsVisible danger_alert].

Fixpoint retry_rounds (n : nat) : list event :=
  match n with
  | O => []
  | S n' => retry_round ++ retry_rounds n'
  end.

(** Calls that drive the browser. *)
Definition is_browser_event (e : event) : bool :=
  match e with
  | Goto _ | Click _ | SelectOption _ _ | CheckRadio _ | Fill _ _
  | IsVisible _ | TextContent _ | InnerHtml _ | Screenshot _ _ | ClosePage => true
  | _ => false
  end.

(** The call the archive step makes. *)
Definition archive_call : event :=
  ArchiveFolder "temp/receipts" "output/receipts.zip" true "*.pdf".

(** What a run of [click_order_button_with_retry row count] may record: the
    click, the look at the alert, and the failure record, which carries the
    run's own [row] only when its own [count] is over the bound, and an
    integer otherwise. *)
Definition retry_event (row : row_arg) (count : Z) (e : event) : Prop :=
  e = Click order_button ∨ e = IsVisible danger_alert ∨
  (e = Log ERROR (FailedClick row) ∧ (count > MAX_RETRIES)%Z) ∨
  ∃ n, e = Log ERROR (FailedClick (RowInt n)).

(** The three files the script names after an order number. *)
Definition image_path (order_number : string) : string :=
  "temp/receipts_images/robot_" +:+ order_number +:+ ".png".
Definition pdf_path (order_number : string) : string :=
  "temp/receipts/receipt_" +:+ order_number +:+ ".pdf".
Definition stamped_pdf_path (order_number : string) : string :=
  "temp/receipts/receipt_" +:+ order_number +:+ "_with_robot_image.pdf".

(** Paths of the images and of the PDFs a trace writes, in order. *)
Definition images_written (t : list event) : list string :=
  omap (λ e, match e with Screenshot _ p => Some p | _ => None end) t.
Definition pdfs_written (t : list event) : list string :=
  omap (λ e, match e with
             | HtmlToPdf _ p | AddWatermark _ _ p => Some p
             | _ => None
             end) t.

Definition is_file (f : gmap string node) (p : string) : Prop :=
  ∃ d, f !! p = Some (File d).

(** A PDF receipt by its path: somewhere below [temp/receipts/], with a
    name that ends in [.pdf]. *)
Definition receipt_pdf (p : string) : Prop :=
  (∃ q, p = "temp/receipts/" +:+ q) ∧ (∃ pre, p = pre +:+ ".pdf").

(** The calls that fill a field of the order form. *)
Definition is_field_event (e : event) : bool :=
  match e with
  | SelectOption _ _ | CheckRadio _ | Fill _ _ => true
  | _ => false
  end.

(** A row as [pd.read_csv] delivers it: numeric columns as integers. *)
Definition row8_parsed : order_row :=
  {| Head := PyInt 2; Body := PyInt 3; Legs := PyInt 4;
     Address := "Evergreen 123" |}.

(** ** Concrete environments *)

Definition w_empty : world := {| fs := ∅; trace := [] |}.

Definition row8 : order_row :=
  {| Head := PyStr "2"; Body := PyStr "3"; Legs := PyStr "4";
     Address := "Evergreen 123" |}.

Definition two_orders : list order_row := [row8_parsed; row8].

(** Nothing fails, the alert never shows, the badge text is fresh. *)
Definition env_ok : env :=
  {| recursion_limit := 1000;
     faults := λ _, None;
     http_status := 200;
     csv_rows := [row8];
     visible := λ _, false;
     text := λ h, "RSB-ROBO-ORDER-" +:+ pretty (List.length h);
     zip_fault := λ _, None |}.

(** The alert is visible after every click. *)
Definition env_stuck : env :=
  {| recursion_limit := 1000;
     faults := λ _, None;
     http_status := 200;
     csv_rows := [row8];
     visible := λ _, true;
     text := text env_ok;
     zip_fault := λ _, None |}.

(** The alert is visible after the first three clicks only. *)
Definition env_three_alerts : env :=
  {| recursion_limit := 1000;
     faults := λ _, None;
     http_status := 200;
     csv_rows := [row8];
     visible := λ h, bool_decide (submit_clicks h < 4);
     text := text env_ok;
     zip_fault := λ _, None |}.

(** The order list answers 500. *)
Definition env_500 : env :=
  {| recursion_limit := 1000;
     faults := λ _, None;
     http_status := 500;
     csv_rows := [];
     visible := λ _, false;
     text := text env_ok;
     zip_fault := λ _, None |}.

(** The order list answers 300 with a CSV body. *)
Definition env_300 : env :=
  {| recursion_limit := 1000;
     faults := λ _, None;
     http_status := 300;
     csv_rows := [row8];
     visible := λ _, false;
     text := text env_ok;
     zip_fault := λ _, None |}.

(** The order list has a header and no rows. *)
Definition env_no_rows : env :=
  {| recursion_limit := 1000;
     faults := λ _, None;
     http_status := 200;
     csv_rows := [];
     visible := λ _, false;
     text := text env_ok;
     zip_fault := λ _, None |}.

(** Deleting the temporary tree fails. *)
Definition env_rmtree_fails : env :=
  {| recursion_limit := 1000;
     faults := λ h, match last h with
                    | Some (Rmtree p) => Some (OSError p)
                    | _ => None
                    end;
     http_status := 200;
     csv_rows := [row8];
     visible := λ _, false;
     text := text env_ok;
     zip_fault := λ _, None |}.

(** The first order goes through; from the second on the alert stays. *)
Definition env_second_stuck : env :=
  {| recursion_limit := 50;
     faults := λ _, None;
     http_status := 200;
     csv_rows := [row8_parsed; row8];
     visible := λ h, bool_decide (2 ≤ List.length (filter (λ e, e = Goto ORDER_URL) h));
     text := text env_ok;
     zip_fault := λ _, None |}.

(** The four calls that fill the form for a row, in the order of the
    source. *)
Definition field_calls (row : order_row) : list event :=
  [SelectOption "//select[@id='head']" (py_str (Head row));
   CheckRadio ("//input[@id='id-body-" +:+ py_str (Body row) +:+ "']");
   Fill "//div[contains(label, 'Legs')]//input" (py_str (Legs row));
   Fill "//input[@id='address']" (Address row)].

(** The world a run starts in: the [output] directory is there. *)
Definition w_start : world := {| fs := {["output" := Dir]}; trace := [] |}.

(** Nothing fails and the badge is always empty. *)
Definition env_blank_badge : env :=
  {| recursion_limit := 1000;
     faults := λ _, None;
     http_status := 200;
     csv_rows := [row8];
     visible := λ _, false;
     text := λ _, "";
     zip_fault := λ _, None |}.

(** The order numbers a stretch [t] of the trace reads, [pre] being the
    history before it: the answers to its reads of the badge, which are
    what [fill_the_form_for_one_order] returns. *)
Fixpoint order_numbers_read (E : env) (pre t : list event) : list string :=
  match t with
  | [] => []
  | e :: t' =>
      (if decide (e = TextContent success_badge) then [text E (pre ++ [e])] else [])
      ++ order_numbers_read E (pre ++ [e]) t'
  end.

(** What a pass of the loop records up to and including its read of the
    badge, after [k + 1] rounds of the retry helper. *)
Definition pass_until_badge (row : order_row) (k : nat) : list event :=
  [Makedirs "temp/receipts"; Makedirs "temp/receipts_images";
   Goto ORDER_URL; Click "//button[@class='btn btn-dark']"]
  ++ field_calls row ++ retry_rounds (S k) ++ [TextContent success_badge].

(** What it records after that, for the order number [n] and the receipt
    HTML [html]. *)
Definition pass_after_badge (n html : string) : list event :=
  [Screenshot "//div[@id='robot-preview-image']" (image_path n);
   InnerHtml "//div[@id='receipt']";
   HtmlToPdf html (pdf_path n);
   AddWatermark (image_path n) (pdf_path n) (stamped_pdf_path n);
   Log INFO (ReceiptSaved n);
   ClosePage].

(** ** Relations between worlds *)

(** [temp] itself or a path below it. *)
Definition in_temp_tree (p : string) : Prop := p = "temp" ∨ under "temp" p = true.

(** The calls the per-row loop can make: everything but the fetch, the
    archive call and the deletion. *)
Definition is_order_event (e : event) : bool :=
  match e with
  | HttpGet _ | ReadCsv | ArchiveFolder _ _ _ _ | Rmtree _ => false
  | _ => true
  end.

(** [w'] is [w] after some order processing: nothing outside the [temp]
    tree has changed, no directory and no regular file has gone, and the
    trace has grown by calls of the loop. *)
Definition order_progress (w w' : world) : Prop :=
  (∀ p, ¬ in_temp_tree p → fs w' !! p = fs w !! p) ∧
  (∀ p, fs w !! p = Some Dir → fs w' !! p = Some Dir) ∧
  (∀ p, is_file (fs w) p → is_file (fs w') p) ∧
  ∃ t, trace w' = trace w ++ t ∧ Forall (λ e, is_order_event e = true) t.

(** Every run of [m] takes a world to an [R]-related one, whatever its
    outcome. *)
Definition steps (R : relation world) {A} (m : M A) : Prop :=
  ∀ w, R w (m w).2.

(** * Verification *)

(** ** Running the monad *)

Lemma trace_extend w t : trace (extend w t) = trace w ++ t.
Proof. reflexivity. Qed.

Lemma fs_extend w t : fs (extend w t) = fs w.
Proof. reflexivity. Qed.

Lemma extend_nil w : extend w [] = w.
Proof. destruct w; unfold extend; simpl. by rewrite app_nil_r. Qed.

Lemma extend_extend w t1 t2 : extend (extend w t1) t2 = extend w (t1 ++ t2).
Proof. unfold extend; simpl. by rewrite app_assoc. Qed.

Lemma with_fs_extend f w t : with_fs f (extend w t) = extend (with_fs f w) t.
Proof. reflexivity. Qed.

Lemma fs_with_fs f w : fs (with_fs f w) = f.
Proof. reflexivity. Qed.

Lemma trace_with_fs f w : trace (with_fs f w) = trace w.
Proof. reflexivity. Qed.

Lemma pair_eta_fst {A B} (p : A * B) (a : A) : p.1 = a → p = (a, p.2).
Proof. destruct p. simpl. congruence. Qed.

Lemma bind_run {A B} (m : M A) (f : A → M B) w :
  (m ≫= f) w =
  match m w with
  | (Ok a, w') => f a w'
  | (Raise e, w') => (Raise e, w')
  end.
Proof. reflexivity. Qed.

Lemma ret_run {A} (a : A) w : (mret a : M A) w = (Ok a, w).
Proof. reflexivity. Qed.

Lemma get_fs_bind {B} (f : gmap string node → M B) w : (get_fs ≫= f) w = f (fs w) w.
Proof. reflexivity. Qed.

Lemma history_bind {B} (f : list event → M B) w : (history ≫= f) w = f (trace w) w.
Proof. reflexivity. Qed.

Lemma bind_Ok_inv {A B} (m : M A) (f : A → M B) w b w' :
  (m ≫= f) w = (Ok b, w') →
  ∃ a w1, m w = (Ok a, w1) ∧ f a w1 = (Ok b, w').
Proof.
  rewrite bind_run. destruct (m w) as [[a|e] w1]; [eauto | discriminate].
Qed.

Lemma external_run E e w :
  external E e w =
  match faults E (trace w ++ [e]) with
  | Some x => (Raise x, extend w [e])
  | None => (Ok tt, extend w [e])
  end.
Proof.
  unfold external. rewrite bind_run. simpl. rewrite bind_run. simpl.
  by destruct (faults E (trace w ++ [e])).
Qed.

Lemma external_Ok_inv E e w u w' :
  external E e w = (Ok u, w') → w' = extend w [e].
Proof.
  rewrite external_run. destruct (faults E _); [discriminate | congruence].
Qed.

Lemma log_run lvl r w : log lvl r w = (Ok tt, extend w [Log lvl r]).
Proof. reflexivity. Qed.

Lemma filter_none {A} (P : A → Prop) `{!∀ x, Decision (P x)} (l : list A) :
  Forall (λ x, ¬ P x) l → filter P l = [].
Proof.
  induction 1 as [|x l Hx _ IH]; [done|].
  by rewrite filter_cons_False.
Qed.

Lemma omap_none {A B} (f : A → option B) (l : list A) :
  Forall (λ x, f x = None) l → omap f l = [].
Proof.
  induction 1 as [|x l Hx _ IH]; [done|].
  simpl. by rewrite Hx.
Qed.

Lemma submit_clicks_app t1 t2 :
  submit_clicks (t1 ++ t2) = submit_clicks t1 + submit_clicks t2.
Proof. unfold submit_clicks. by rewrite filter_app, length_app. Qed.

Lemma submit_clicks_rounds n : submit_clicks (retry_rounds n) = n.
Proof.
  induction n as [|n IH]; [done|].
  change (retry_rounds (S n)) with (retry_round ++ retry_rounds n).
  rewrite submit_clicks_app, IH. reflexivity.
Qed.

(** ** The retry helper *)

(** [Forall P] over an explicit list, each element by [tac]. *)
Ltac forall_list tac :=
  repeat first [ apply Forall_nil_2 | apply Forall_cons_2; [tac|] ].

Ltac pick_disjunct :=
  first [ done | left; pick_disjunct | right; pick_disjunct ].

Section ClickRetry.
Context (E : env).

Lemma locator_is_visible_run selector w :
  locator_is_visible E selector w =
  match faults E (trace w ++ [IsVisible selector]) with
  | Some x => (Raise x, extend w [IsVisible selector])
  | None => (Ok (visible E (trace w ++ [IsVisible selector])),
             extend w [IsVisible selector])
  end.
Proof.
  unfold locator_is_visible. rewrite bind_run, external_run.
  by destruct (faults E _).
Qed.

(** One activation, case by case. *)
Lemma activation_run row count w :
  click_order_button_activation E row count w =
  match faults E (trace w ++ [Click order_button]) with
  | Some x => (Raise x, extend w [Click order_button])
  | None =>
      if decide (count > MAX_RETRIES)%Z then
        (Ok None, extend w [Click order_button; Log ERROR (FailedClick row)])
      else
        match faults E (trace w ++ retry_round) with
        | Some x => (Raise x, extend w retry_round)
        | None =>
            (Ok (if visible E (trace w ++ retry_round)
                 then Some (RowInt (count + 1), 0%Z) else None),
             extend w retry_round)
        end
  end.
Proof.
  unfold click_order_button_activation, page_click.
  rewrite bind_run, external_run.
  destruct (faults E (trace w ++ [Click order_button])); [done|].
  destruct (decide (count > MAX_RETRIES)%Z).
  { rewrite bind_run, log_run. unfold mret, M_ret. by rewrite extend_extend. }
  rewrite bind_run, locator_is_visible_run. simpl trace.
  rewrite <- app_assoc, extend_extend. simpl app. fold retry_round.
  destruct (faults E (trace w ++ retry_round)); [done|].
  by destruct (visible E (trace w ++ retry_round)).
Qed.

(** The arguments of the recursive call: the incremented count sits in
    the [row] position and [count] is back at its default. *)
Lemma activation_recursive_call row count w row' count' w' :
  click_order_button_activation E row count w = (Ok (Some (row', count')), w') →
  row' = RowInt (count + 1) ∧ count' = 0%Z.
Proof.
  rewrite activation_run.
  destruct (faults E _); [discriminate|].
  destruct (decide _); [discriminate|].
  destruct (faults E _); [discriminate|].
  destruct (visible E _); [|discriminate].
  intros [= <- <- _]. done.
Qed.

(** While the alert stays visible and no external call fails, every frame
    the interpreter grants is spent on one more round. *)
Lemma retry_visible_run depth row count w :
  (∀ t, faults E t = None) →
  (∀ t, visible E t = true) →
  (count ≤ MAX_RETRIES)%Z →
  click_order_button_with_retry E depth row count w =
  (Raise RecursionError, extend w (retry_rounds depth)).
Proof.
  intros Hf Hv. revert row count w.
  induction depth as [|depth IH]; intros row count w Hc.
  - simpl. unfold raise. by rewrite extend_nil.
  - simpl click_order_button_with_retry. rewrite bind_run, activation_run.
    rewrite !Hf, Hv. destruct (decide _) as [Hgt|_]; [lia|].
    rewrite IH by (unfold MAX_RETRIES; lia).
    by rewrite extend_extend.
Qed.

(** The alert goes away after round [k + 1]: the helper returns after
    exactly [k + 1] clicks, whatever [k] is. *)
Lemma retry_clears_run k : ∀ depth row count w,
  (∀ t, faults E t = None) →
  (∀ t, submit_clicks (trace w) < submit_clicks t ≤ submit_clicks (trace w) + k →
        visible E t = true) →
  (∀ t, submit_clicks t = submit_clicks (trace w) + k + 1 → visible E t = false) →
  (count ≤ MAX_RETRIES)%Z →
  k < depth →
  click_order_button_with_retry E depth row count w =
  (Ok tt, extend w (retry_rounds (S k))).
Proof.
  induction k as [|k IH]; intros depth row count w Hf Hv Hn Hc Hd;
    (destruct depth as [|depth]; [lia|]);
    simpl click_order_button_with_retry; rewrite bind_run, activation_run;
    rewrite !Hf; (destruct (decide _) as [Hgt|_]; [lia|]).
  - rewrite Hn; [done|].
    rewrite submit_clicks_app. change (submit_clicks retry_round) with 1. lia.
  - rewrite Hv.
    2:{ rewrite submit_clicks_app. change (submit_clicks retry_round) with 1. lia. }
    rewrite (IH depth); try done; try (unfold MAX_RETRIES; lia).
    + by rewrite extend_extend.
    + intros t Ht. apply Hv. revert Ht. simpl trace.
      rewrite submit_clicks_app. change (submit_clicks retry_round) with 1. lia.
    + intros t Ht. apply Hn. revert Ht. simpl trace.
      rewrite submit_clicks_app. change (submit_clicks retry_round) with 1. lia.
Qed.

(** Whatever the environment does, a run records nothing but retry
    events. *)
Lemma retry_events depth : ∀ row count w,
  ∃ t, (click_order_button_with_retry E depth row count w).2 = extend w t ∧
       Forall (retry_event row count) t.
Proof.
  induction depth as [|depth IH]; intros row count w.
  { exists []. by rewrite extend_nil. }
  simpl click_order_button_with_retry. rewrite bind_run, activation_run.
  destruct (faults E (trace w ++ [Click order_button])).
  { exists [Click order_button]. split; [done|].
    forall_list ltac:(unfold retry_event; pick_disjunct). }
  destruct (decide (count > MAX_RETRIES)%Z) as [Hgt|Hle].
  { exists [Click order_button; Log ERROR (FailedClick row)]. split; [done|].
    forall_list ltac:(unfold retry_event; pick_disjunct). }
  assert (Hround : Forall (retry_event row count) retry_round).
  { forall_list ltac:(unfold retry_event; pick_disjunct). }
  destruct (faults E (trace w ++ retry_round)).
  { by exists retry_round. }
  destruct (visible E (trace w ++ retry_round)); [|by exists retry_round].
  destruct (IH (RowInt (count + 1)) 0%Z (extend w retry_round)) as (t & Ht & HP).
  exists (retry_round ++ t). split.
  { by rewrite Ht, extend_extend. }
  apply Forall_app. split; [done|].
  eapply Forall_impl; [exact HP|].
  intros e [->|[->|[[-> _]|[n ->]]]].
  - by left.
  - right; by left.
  - right; right; right. eauto.
  - right; right; right. eauto.
Qed.

(** With the alert always visible no run returns, and none logs. *)
Lemma retry_visible_raises depth : ∀ row count w,
  (∀ t, visible E t = true) →
  (count ≤ MAX_RETRIES)%Z →
  ∃ e t, click_order_button_with_retry E depth row count w = (Raise e, extend w t) ∧
         Forall (λ ev, ev = Click order_button ∨ ev = IsVisible danger_alert) t.
Proof.
  induction depth as [|depth IH]; intros row count w Hv Hc.
  { exists RecursionError, []. by rewrite extend_nil. }
  simpl click_order_button_with_retry. rewrite bind_run, activation_run.
  destruct (faults E (trace w ++ [Click order_button])) as [x|].
  { exists x, [Click order_button]. split; [done|]. forall_list pick_disjunct. }
  destruct (decide (count > MAX_RETRIES)%Z) as [Hgt|_]; [lia|].
  assert (Hround : Forall (λ ev, ev = Click order_button ∨ ev = IsVisible danger_alert)
                     retry_round).
  { forall_list pick_disjunct. }
  destruct (faults E (trace w ++ retry_round)) as [x|].
  { by exists x, retry_round. }
  rewrite Hv.
  destruct (IH (RowInt (count + 1)) 0%Z (extend w retry_round) Hv)
    as (e & t & Ht & HP); [unfold MAX_RETRIES; lia|].
  exists e, (retry_round ++ t). split.
  { by rewrite Ht, extend_extend. }
  apply Forall_app. done.
Qed.

(** Started within the bound, a run records clicks and looks only. *)
Lemma retry_events_in_bound depth : ∀ row count w,
  (count ≤ MAX_RETRIES)%Z →
  ∃ t, (click_order_button_with_retry E depth row count w).2 = extend w t ∧
       Forall (λ ev, ev = Click order_button ∨ ev = IsVisible danger_alert) t.
Proof.
  induction depth as [|depth IH]; intros row count w Hc.
  { exists []. by rewrite extend_nil. }
  simpl click_order_button_with_retry. rewrite bind_run, activation_run.
  destruct (faults E (trace w ++ [Click order_button])).
  { exists [Click order_button]. split; [done|]. forall_list pick_disjunct. }
  destruct (decide (count > MAX_RETRIES)%Z) as [Hgt|_]; [lia|].
  assert (Hround : Forall (λ ev, ev = Click order_button ∨ ev = IsVisible danger_alert)
                     retry_round).
  { forall_list pick_disjunct. }
  destruct (faults E (trace w ++ retry_round)).
  { by exists retry_round. }
  destruct (visible E (trace w ++ retry_round)); [|by exists retry_round].
  destruct (IH (RowInt (count + 1)) 0%Z (extend w retry_round)) as (t & Ht & HP).
  { unfold MAX_RETRIES. lia. }
  exists (retry_round ++ t). split.
  { by rewrite Ht, extend_extend. }
  by apply Forall_app.
Qed.

End ClickRetry.

Lemma rounds_no_log n a : Log ERROR (FailedClick a) ∉ retry_rounds n.
Proof.
  induction n as [|n IH]; simpl.
  - apply not_elem_of_nil.
  - rewrite !not_elem_of_cons. done.
Qed.

(** C1: the retry is meant to stop after [MAX_RETRIES + 1] clicks with a
    logged error.  With the alert visible after clicks 1 to 3 and gone after
    the 4th the helper returns after exactly 4 clicks, as claimed.  With the
    alert visible after every click it does not stop: it clicks once per
    frame the interpreter grants, never logs the failure and ends in
    [RecursionError], because the count never advances. *)
Theorem retry_bound_not_enforced (E : env) (row : order_row) (w : world) (depth : nat) :
  (∀ t, faults E t = None) →
  Z.to_nat (MAX_RETRIES + 1) < depth →
  ((∀ t, submit_clicks (trace w) < submit_clicks t ≤ submit_clicks (trace w) + 3 →
         visible E t = true) →
   (∀ t, submit_clicks t = submit_clicks (trace w) + 4 → visible E t = false) →
   ∃ w', click_order_button_with_retry E depth (RowSeries row) 0 w = (Ok tt, w') ∧
         submit_clicks (trace w') = submit_clicks (trace w) + 4) ∧
  ((∀ t, visible E t = true) →
   ∃ w', click_order_button_with_retry E depth (RowSeries row) 0 w
         = (Raise RecursionError, w') ∧
         submit_clicks (trace w') = submit_clicks (trace w) + depth ∧
         Z.to_nat (MAX_RETRIES + 1) < submit_clicks (trace w') - submit_clicks (trace w) ∧
         ∀ a, Log ERROR (FailedClick a) ∈ trace w' → Log ERROR (FailedClick a) ∈ trace w).
Proof.
  intros Hf Hd. split.
  - intros Hv Hn. eexists. split.
    + apply (retry_clears_run E 3); try done.
      * intros t Ht. apply Hn. lia.
      * change (Z.to_nat (MAX_RETRIES + 1)) with 4 in Hd. lia.
    + rewrite trace_extend, submit_clicks_app, submit_clicks_rounds. lia.
  - intros Hv. eexists. split; [by apply retry_visible_run|].
    rewrite trace_extend, submit_clicks_app, submit_clicks_rounds.
    split; [done|]. split; [lia|].
    intros a [Ha|Ha]%elem_of_app; [done|].
    by apply rounds_no_log in Ha.
Qed.

(** C2: the recursive call binds [count + 1] to [row] and leaves [count] at
    its default, so no failure record written by a call that the recursion
    made, whatever its count, carries an order row; and a run started the
    way the form driver starts it never logs a record that names a row. *)
Theorem retry_error_never_names_row (E : env) (depth : nat) (row : order_row) (w : world) :
  (∀ r c w0 r' c' w1,
     click_order_button_activation E r c w0 = (Ok (Some (r', c')), w1) →
     r' = RowInt (c + 1) ∧ c' = 0%Z) ∧
  (∀ n c w0, ∃ t,
     (click_order_button_with_retry E depth (RowInt n) c w0).2 = extend w0 t ∧
     ∀ a, Log ERROR (FailedClick a) ∈ t → ∀ r, a ≠ RowSeries r) ∧
  (∃ t,
     (click_order_button_with_retry E depth (RowSeries row) 0 w).2 = extend w t ∧
     ∀ a, Log ERROR (FailedClick a) ∈ t → ∀ r, a ≠ RowSeries r).
Proof.
  split; [apply activation_recursive_call|]. split.
  - intros n c w0.
    destruct (retry_events E depth (RowInt n) c w0) as (t & Ht & HP).
    exists t. split; [done|]. intros a Ha r ->.
    rewrite Forall_forall in HP. specialize (HP _ Ha).
    destruct HP as [?|[?|[[? _]|[m ?]]]]; congruence.
  - destruct (retry_events E depth (RowSeries row) 0 w) as (t & Ht & HP).
    exists t. split; [done|]. intros a Ha r ->.
    rewrite Forall_forall in HP. specialize (HP _ Ha).
    destruct HP as [?|[?|[[_ Hgt]|[m ?]]]]; try congruence.
    unfold MAX_RETRIES in Hgt. lia.
Qed.

(** C9: every recursive call of [click_order_button_with_retry] gets
    [count = 0], so the guard [count > MAX_RETRIES] never fires in it; with
    the alert visible after every click no run returns (each ends in an
    exception and logs nothing), and when no external call fails the run
    uses every frame it is granted, one click per frame, up to
    [RecursionError]. *)
Theorem retry_count_never_advances (E : env) (depth : nat) (row : row_arg)
    (count : Z) (w : world) :
  (count ≤ MAX_RETRIES)%Z →
  (∀ t, visible E t = true) →
  (∀ r c w0 r' c' w1,
     click_order_button_activation E r c w0 = (Ok (Some (r', c')), w1) →
     r' = RowInt (c + 1) ∧ c' = 0%Z ∧ ¬ (c' > MAX_RETRIES)%Z) ∧
  (∃ e w', click_order_button_with_retry E depth row count w = (Raise e, w') ∧
           ∀ a, Log ERROR (FailedClick a) ∈ trace w' →
                Log ERROR (FailedClick a) ∈ trace w) ∧
  ((∀ t, faults E t = None) →
   ∃ w', click_order_button_with_retry E depth row count w
         = (Raise RecursionError, w') ∧
         submit_clicks (trace w') = submit_clicks (trace w) + depth).
Proof.
  intros Hc Hv. split; [|split].
  - intros r c w0 r' c' w1 H.
    apply activation_recursive_call in H as [-> ->].
    unfold MAX_RETRIES. repeat split. lia.
  - destruct (retry_visible_raises E depth row count w Hv Hc) as (e & t & Ht & HP).
    exists e, (extend w t). split; [done|].
    intros a [Ha|Ha]%elem_of_app; [done|].
    rewrite Forall_forall in HP. destruct (HP _ Ha); congruence.
  - intros Hf. eexists. split; [by apply retry_visible_run|].
    by rewrite trace_extend, submit_clicks_app, submit_clicks_rounds.
Qed.

(** ** Fetching, archiving, cleaning up *)

Section Pipeline.
Context (E : env).

Lemma get_orders_run w :
  get_orders E w =
  match faults E (trace w ++ [HttpGet CSV_URL]) with
  | Some x => (Raise x, extend w [HttpGet CSV_URL])
  | None =>
      if ((400 <=? http_status E) && (http_status E <? 600))%Z then
        (Raise (HTTPError (http_status E)), extend w [HttpGet CSV_URL])
      else
        match faults E (trace w ++ [HttpGet CSV_URL; ReadCsv]) with
        | Some x => (Raise x, extend w [HttpGet CSV_URL; ReadCsv])
        | None => (Ok (csv_rows E), extend w [HttpGet CSV_URL; ReadCsv])
        end
  end.
Proof.
  unfold get_orders. rewrite bind_run.
  unfold requests_get. rewrite bind_run, external_run.
  destruct (faults E (trace w ++ [HttpGet CSV_URL])); [done|].
  rewrite ret_run. cbv beta iota.
  rewrite bind_run. unfold raise_for_status.
  destruct ((400 <=? http_status E) && (http_status E <? 600))%Z; [done|].
  rewrite ret_run. cbv beta iota.
  unfold read_csv.
  rewrite bind_run, external_run, trace_extend, <- app_assoc, extend_extend.
  simpl app.
  by destruct (faults E (trace w ++ [HttpGet CSV_URL; ReadCsv])).
Qed.

Lemma write_file_run path d w :
  write_file path d w =
  match fs w !! path with
  | Some Dir => (Raise (OSError path), w)
  | _ => (Ok tt, with_fs (<[path := File d]> (fs w)) w)
  end.
Proof.
  unfold write_file. rewrite bind_run. simpl.
  by destruct (fs w !! path) as [[|]|].
Qed.

Lemma create_file_run path d w :
  create_file path d w =
  if can_create (fs w) path then (Ok tt, with_fs (<[path := File d]> (fs w)) w)
  else (Raise (OSError path), w).
Proof.
  unfold create_file. rewrite get_fs_bind. by destruct (can_create (fs w) path).
Qed.

Lemma zip_outcome_complete fault filelist written :
  zip_outcome fault filelist = (written, None) → written = filelist.
Proof.
  unfold zip_outcome. destruct fault as [[i x]|]; [|congruence].
  destruct (decide _); congruence.
Qed.

Lemma archive_receipts_run w :
  archive_receipts E w =
  match faults E (trace w ++ [archive_call]) with
  | Some x => (Raise x, extend w [archive_call])
  | None =>
      match list_files_in_directory (fs w) "temp/receipts" true "*.pdf" with
      | [] => (Raise (ValueError "No files found to archive"), extend w [archive_call])
      | filelist =>
          if can_create (fs w) "output/receipts.zip" then
            match zip_outcome (zip_fault E (trace w ++ [archive_call])) filelist with
            | (written, Some x) =>
                (Raise x,
                 extend (with_fs (<["output/receipts.zip" := File (ZipOf written)]> (fs w)) w)
                        [archive_call])
            | (written, None) =>
                (Ok tt,
                 extend (with_fs (<["output/receipts.zip" := File (ZipOf written)]> (fs w)) w)
                        [archive_call; Log INFO ReceiptsArchived])
            end
          else (Raise (OSError "output/receipts.zip"), extend w [archive_call])
      end
  end.
Proof.
  unfold archive_receipts, archive_folder_with_zip. fold archive_call.
  rewrite !bind_run, external_run.
  destruct (faults E (trace w ++ [archive_call])); [done|].
  rewrite get_fs_bind, fs_extend.
  destruct (list_files_in_directory _ _ _ _) as [|p l]; [done|].
  rewrite bind_run, create_file_run, fs_extend.
  destruct (can_create (fs w) "output/receipts.zip"); [|done].
  rewrite history_bind, trace_with_fs, trace_extend.
  destruct (zip_outcome _ _) as [written failure].
  rewrite bind_run, write_file_run, fs_with_fs, lookup_insert_eq.
  rewrite insert_insert_eq. simpl snd. simpl fst.
  destruct failure as [x|]; [done|].
  change ((written, @None exn).2) with (@None exn). cbv beta iota.
  rewrite ret_run. cbv beta iota. rewrite log_run.
  unfold extend, with_fs. simpl. by rewrite <- app_assoc.
Qed.

Lemma rmtree_run path w :
  rmtree E path w =
  match faults E (trace w ++ [Rmtree path]) with
  | Some x => (Raise x, extend w [Rmtree path])
  | None =>
      match fs w !! path with
      | Some Dir => (Ok tt, extend (with_fs (without_tree path (fs w)) w) [Rmtree path])
      | _ => (Raise (OSError path), extend w [Rmtree path])
      end
  end.
Proof.
  unfold rmtree. rewrite bind_run, external_run.
  destruct (faults E (trace w ++ [Rmtree path])); [done|].
  rewrite get_fs_bind, fs_extend. by destruct (fs w !! path) as [[|]|].
Qed.

(** [cleanup], case by case: it always returns. *)
Lemma cleanup_run w :
  cleanup E w =
  match fs w !! "temp" with
  | None => (Ok tt, w)
  | Some n =>
      match rmtree E "temp" w with
      | (Ok _, w1) => (Ok tt, extend w1 [Log INFO TempCleaned])
      | (Raise x, w1) => (Ok tt, extend w1 [Log ERROR (CleanupFailed x)])
      end
  end.
Proof.
  unfold cleanup, try_except, path_exists. rewrite !bind_run. simpl.
  destruct (fs w !! "temp") as [n|] eqn:Hn.
  - rewrite bool_decide_eq_true_2 by eauto.
    rewrite bind_run. by destruct (rmtree E "temp" w) as [[[]|x] w1].
  - rewrite bool_decide_eq_false_2; [done|]. by intros [? ?].
Qed.

Lemma cleanup_returns w : ∃ w', cleanup E w = (Ok tt, w').
Proof.
  rewrite cleanup_run. destruct (fs w !! "temp"); [|eauto].
  destruct (rmtree E "temp" w) as [[[]|x] w1]; eauto.
Qed.

Lemma task_run w :
  order_robots_from_RobotSpareBin E w =
  ((order_robots_body E w).1, (cleanup E (order_robots_body E w).2).2).
Proof.
  unfold order_robots_from_RobotSpareBin, try_finally.
  destruct (order_robots_body E w) as [r w1]. simpl.
  destruct (cleanup_returns w1) as [w2 ->]. done.
Qed.

Lemma lookup_without_tree_root path (f : gmap string node) :
  without_tree path f !! path = None.
Proof.
  unfold without_tree. apply map_lookup_filter_None. right.
  intros x _ H. apply H. by left.
Qed.

(** After [cleanup], either [temp] is gone or the failure to delete it is
    the last record of the trace. *)
Lemma cleanup_outcome w :
  fs (cleanup E w).2 !! "temp" = None ∨
  ∃ x, last (trace (cleanup E w).2) = Some (Log ERROR (CleanupFailed x)) ∧
       fs (cleanup E w).2 !! "temp" = fs w !! "temp".
Proof.
  rewrite cleanup_run. destruct (fs w !! "temp") as [n|] eqn:Hn; [|by left].
  rewrite rmtree_run.
  destruct (faults E (trace w ++ [Rmtree "temp"])) as [x|].
  { right. exists x. simpl. split; [|done].
    by rewrite last_snoc. }
  rewrite Hn. destruct n as [|d].
  - left. simpl. apply lookup_without_tree_root.
  - right. exists (OSError "temp"). simpl. split; [|done].
    by rewrite last_snoc.
Qed.

(** [cleanup] records nothing of the browser and adds no file. *)
Lemma cleanup_events w :
  ∃ t, trace (cleanup E w).2 = trace w ++ t ∧
       Forall (λ ev, is_browser_event ev = false) t ∧
       fs (cleanup E w).2 ⊆ fs w.
Proof.
  rewrite cleanup_run. destruct (fs w !! "temp") as [n|] eqn:Hn.
  2:{ exists []. by rewrite app_nil_r. }
  rewrite rmtree_run.
  destruct (faults E (trace w ++ [Rmtree "temp"])) as [x|].
  { eexists [_; _]. simpl. rewrite <- app_assoc. simpl.
    split; [done|]. split; [forall_list done|done]. }
  rewrite Hn. destruct n as [|d].
  - eexists [_; _]. simpl. rewrite <- app_assoc. simpl.
    split; [done|]. split; [forall_list done|]. apply map_filter_subseteq.
  - eexists [_; _]. simpl. rewrite <- app_assoc. simpl.
    split; [done|]. split; [forall_list done|done].
Qed.

End Pipeline.

(** C5 (amended): [raise_for_status] raises for 4xx and 5xx only.  When the
    order list answers with such a status the task fails: the exception is
    the [HTTPError] (or whatever the GET itself raised), nothing of the
    browser is recorded after the GET, and the run adds no file. *)
Theorem http_error_stops_before_browser (E : env) (w : world) :
  (400 ≤ http_status E < 600)%Z →
  ∃ e w' t,
    order_robots_from_RobotSpareBin E w = (Raise e, w') ∧
    (faults E (trace w ++ [HttpGet CSV_URL]) = None → e = HTTPError (http_status E)) ∧
    trace w' = trace w ++ HttpGet CSV_URL :: t ∧
    Forall (λ ev, is_browser_event ev = false) t ∧
    fs w' ⊆ fs w.
Proof.
  intros Hs.
  assert (Hb : ∃ e, order_robots_body E w = (Raise e, extend w [HttpGet CSV_URL]) ∧
                    (faults E (trace w ++ [HttpGet CSV_URL]) = None →
                     e = HTTPError (http_status E))).
  { unfold order_robots_body. rewrite bind_run, get_orders_run.
    destruct (faults E (trace w ++ [HttpGet CSV_URL])) as [x|].
    - exists x. done.
    - replace ((400 <=? http_status E) && (http_status E <? 600))%Z with true.
      + eexists. done.
      + symmetry. apply andb_true_intro. split; [apply Z.leb_le|apply Z.ltb_lt]; lia. }
  destruct Hb as (e & Hb & He).
  destruct (cleanup_events E (extend w [HttpGet CSV_URL])) as (t & Ht & HP & Hfs).
  exists e, (cleanup E (extend w [HttpGet CSV_URL])).2, t.
  rewrite task_run, Hb. simpl fst. simpl snd.
  split; [done|]. split; [done|]. split; [|split; done].
  rewrite Ht, trace_extend, <- app_assoc. done.
Qed.

(** C5 as stated fails: 300 is not a 2xx status, yet the task goes on to
    the browser and completes. *)
Lemma status_300_reaches_browser :
  ¬ (200 ≤ http_status env_300 < 300)%Z ∧
  (order_robots_from_RobotSpareBin env_300 w_start).1 = Ok tt ∧
  existsb is_browser_event
    (trace (order_robots_from_RobotSpareBin env_300 w_start).2) = true.
Proof.
  split; [simpl; lia|]. split; vm_compute; reflexivity.
Qed.

(** C6: on every exit path of the task the deletion of [temp] is attempted
    in the world the [try] block ended in, whatever that block's outcome,
    and the task's outcome is the block's.  If [temp] is not there, nothing
    is done; if it is, [shutil.rmtree] is called on it: when the deletion
    succeeds the whole [temp] tree is gone and success is logged, and when
    it raises, the exception is logged as an error and goes no further. *)
Theorem cleanup_always_runs (E : env) (w : world) :
  (order_robots_from_RobotSpareBin E w).1 = (order_robots_body E w).1 ∧
  (fs (order_robots_body E w).2 !! "temp" = None →
   (order_robots_from_RobotSpareBin E w).2 = (order_robots_body E w).2) ∧
  (is_Some (fs (order_robots_body E w).2 !! "temp") →
   (∃ w2, rmtree E "temp" (order_robots_body E w).2 = (Ok tt, w2) ∧
          (order_robots_from_RobotSpareBin E w).2 = extend w2 [Log INFO TempCleaned] ∧
          trace w2 = trace (order_robots_body E w).2 ++ [Rmtree "temp"] ∧
          ∀ p, in_temp_tree p →
               fs (order_robots_from_RobotSpareBin E w).2 !! p = None) ∨
   (∃ x w2, rmtree E "temp" (order_robots_body E w).2 = (Raise x, w2) ∧
            (order_robots_from_RobotSpareBin E w).2
            = extend w2 [Log ERROR (CleanupFailed x)] ∧
            trace w2 = trace (order_robots_body E w).2 ++ [Rmtree "temp"])).
Proof.
  rewrite task_run. simpl fst. simpl snd.
  set (w1 := (order_robots_body E w).2).
  split; [done|]. rewrite cleanup_run. split.
  - by intros ->.
  - intros [n Hn]. rewrite Hn.
    pose proof (rmtree_run E "temp" w1) as Hr. rewrite Hn in Hr.
    destruct (faults E (trace w1 ++ [Rmtree "temp"])) as [x|].
    { right. exists x, (extend w1 [Rmtree "temp"]). by rewrite Hr. }
    destruct n as [|d].
    + left. eexists. rewrite Hr. split_and!; try done.
      intros p Hp. simpl. unfold without_tree.
      apply map_lookup_filter_None. right. intros y _ H. by apply H.
    + right. exists (OSError "temp"), (extend w1 [Rmtree "temp"]). by rewrite Hr.
Qed.

(** C7 (amended): after every run of the task, whatever its outcome,
    [temp] does not exist, unless [shutil.rmtree] raised on it: then it is
    left as the [try] block left it and the failure is the last record of
    the log. *)
Theorem temp_removed_unless_deletion_fails (E : env) (w : world) :
  fs (order_robots_from_RobotSpareBin E w).2 !! "temp" = None ∨
  ∃ x w2,
    rmtree E "temp" (order_robots_body E w).2 = (Raise x, w2) ∧
    is_Some (fs (order_robots_body E w).2 !! "temp") ∧
    last (trace (order_robots_from_RobotSpareBin E w).2)
    = Some (Log ERROR (CleanupFailed x)) ∧
    fs (order_robots_from_RobotSpareBin E w).2 !! "temp"
    = fs (order_robots_body E w).2 !! "temp".
Proof.
  rewrite task_run. simpl snd.
  set (w1 := (order_robots_body E w).2).
  rewrite cleanup_run. destruct (fs w1 !! "temp") as [n|] eqn:Hn; [|by left].
  pose proof (rmtree_run E "temp" w1) as Hr. rewrite Hn in Hr.
  destruct (faults E (trace w1 ++ [Rmtree "temp"])) as [x|].
  { right. exists x, (extend w1 [Rmtree "temp"]). rewrite Hr.
    split_and!; [done|by eauto| |exact Hn].
    simpl. by rewrite last_snoc. }
  destruct n as [|d].
  - left. rewrite Hr. simpl. apply lookup_without_tree_root.
  - right. exists (OSError "temp"), (extend w1 [Rmtree "temp"]). rewrite Hr.
    split_and!; [done|by eauto| |exact Hn].
    simpl. by rewrite last_snoc.
Qed.

(** C7 as stated fails: when [shutil.rmtree] raises, the run ends normally
    with [temp] still there. *)
Lemma temp_survives_failed_rmtree :
  (order_robots_from_RobotSpareBin env_rmtree_fails w_start).1 = Ok tt ∧
  fs (order_robots_from_RobotSpareBin env_rmtree_fails w_start).2 !! "temp" = Some Dir.
Proof. split; vm_compute; reflexivity. Qed.

(** C10: with an order table of zero rows the [try] block is the fetch
    followed at once by [archive_receipts]: the archive call is recorded
    right after the two fetch calls, no directory was made and no browser
    call happened before it, and [temp/receipts] does not exist when it
    runs. *)
Theorem empty_table_still_archives (E : env) (w : world) :
  csv_rows E = [] →
  ¬ (400 ≤ http_status E < 600)%Z →
  faults E (trace w ++ [HttpGet CSV_URL]) = None →
  faults E (trace w ++ [HttpGet CSV_URL; ReadCsv]) = None →
  fs w !! "temp/receipts" = None →
  order_robots_body E w = archive_receipts E (extend w [HttpGet CSV_URL; ReadCsv]) ∧
  fs (extend w [HttpGet CSV_URL; ReadCsv]) !! "temp/receipts" = None ∧
  fs (extend w [HttpGet CSV_URL; ReadCsv]) = fs w ∧
  ∃ t, trace (order_robots_body E w).2
       = trace w ++ [HttpGet CSV_URL; ReadCsv; archive_call] ++ t ∧
       Forall (λ ev, ev = Log INFO ReceiptsArchived) t.
Proof.
  intros Hrows Hs Hf1 Hf2 Hdir. set (w1 := extend w [HttpGet CSV_URL; ReadCsv]).
  assert (Hbody : order_robots_body E w = archive_receipts E w1).
  { unfold order_robots_body. rewrite bind_run, get_orders_run, Hf1, Hf2.
    replace ((400 <=? http_status E) && (http_status E <? 600))%Z with false.
    - rewrite Hrows. reflexivity.
    - symmetry. apply andb_false_iff.
      destruct (Z.leb_spec 400 (http_status E)); [right|by left].
      apply Z.ltb_ge. lia. }
  split; [done|]. split; [done|]. split; [done|].
  rewrite Hbody, archive_receipts_run.
  destruct (faults E (trace w1 ++ [archive_call])).
  { exists []. simpl. rewrite <- app_assoc. done. }
  destruct (list_files_in_directory _ _ _ _).
  { exists []. simpl. rewrite <- app_assoc. done. }
  destruct (can_create (fs w1) "output/receipts.zip").
  2:{ exists []. simpl. rewrite <- app_assoc. done. }
  destruct (zip_outcome _ _) as [written [x|]].
  - exists []. simpl. rewrite <- app_assoc. done.
  - exists [Log INFO ReceiptsArchived]. simpl. rewrite <- app_assoc.
    split; [done|]. forall_list done.
Qed.

(** ** The form driver and the receipts *)

Section Orders.
Context (E : env).

Lemma page_text_content_run selector w :
  page_text_content E selector w =
  match faults E (trace w ++ [TextContent selector]) with
  | Some x => (Raise x, extend w [TextContent selector])
  | None => (Ok (text E (trace w ++ [TextContent selector])),
             extend w [TextContent selector])
  end.
Proof.
  unfold page_text_content. rewrite bind_run, external_run.
  by destruct (faults E _).
Qed.

(** A run of the retry helper that starts within the bound and returns
    has made [k + 1] rounds and seen no alert after the last. *)
Lemma retry_Ok_rounds depth : ∀ row count w u w',
  (count ≤ MAX_RETRIES)%Z →
  click_order_button_with_retry E depth row count w = (Ok u, w') →
  ∃ k, k < depth ∧ w' = extend w (retry_rounds (S k)) ∧
       visible E (trace w') = false.
Proof.
  induction depth as [|depth IH]; intros row count w u w' Hc H.
  { discriminate. }
  simpl click_order_button_with_retry in H. rewrite bind_run, activation_run in H.
  destruct (faults E (trace w ++ [Click order_button])); [discriminate|].
  destruct (decide (count > MAX_RETRIES)%Z); [lia|].
  destruct (faults E (trace w ++ retry_round)); [discriminate|].
  destruct (visible E (trace w ++ retry_round)) eqn:Hv.
  - apply IH in H as (k & Hk & -> & Hlast); [|unfold MAX_RETRIES; lia].
    exists (S k). split; [lia|]. split; [by rewrite extend_extend|done].
  - injection H as _ <-. exists 0. split; [lia|].
    change (retry_rounds 1) with retry_round. done.
Qed.

(** A completed run of the form driver: the four field calls, at least one
    round of the retry helper with no alert after the last, the read of the
    badge, whose text is the result. *)
Lemma fill_the_form_Ok row w v w' :
  fill_the_form_for_one_order E row w = (Ok v, w') →
  ∃ k,
    k < recursion_limit E ∧
    w' = extend w (field_calls row ++ retry_rounds (S k) ++ [TextContent success_badge]) ∧
    visible E (trace w ++ field_calls row ++ retry_rounds (S k)) = false ∧
    v = text E (trace w').
Proof.
  unfold fill_the_form_for_one_order, page_select_option, page_check, page_fill.
  intros H.
  apply bind_Ok_inv in H as (u1 & w1 & H1 & H). apply external_Ok_inv in H1 as ->.
  apply bind_Ok_inv in H as (u2 & w2 & H2 & H). apply external_Ok_inv in H2 as ->.
  apply bind_Ok_inv in H as (u3 & w3 & H3 & H). apply external_Ok_inv in H3 as ->.
  apply bind_Ok_inv in H as (u4 & w4 & H4 & H). apply external_Ok_inv in H4 as ->.
  apply bind_Ok_inv in H as (u5 & w5 & H5 & H).
  rewrite !extend_extend in H5. simpl app in H5. fold (field_calls row) in H5.
  apply retry_Ok_rounds in H5 as (k & Hk & -> & Hv); [|unfold MAX_RETRIES; lia].
  rewrite page_text_content_run in H.
  destruct (faults E _); [discriminate|].
  injection H as <- <-.
  exists k. rewrite !extend_extend.
  rewrite !trace_extend, <- app_assoc in Hv.
  split_and!; try done.
  by rewrite !trace_extend, <- !app_assoc.
Qed.

Lemma is_file_insert (f : gmap string node) p d q :
  is_file f q → is_file (<[p := File d]> f) q.
Proof.
  intros [d' Hq]. unfold is_file. destruct (decide (p = q)) as [->|Hne].
  - rewrite lookup_insert_eq. eauto.
  - rewrite lookup_insert_ne by done. eauto.
Qed.

Lemma is_file_insert_eq (f : gmap string node) p d :
  is_file (<[p := File d]> f) p.
Proof. unfold is_file. rewrite lookup_insert_eq. eauto. Qed.

Lemma write_file_Ok_inv path d w u w1 :
  write_file path d w = (Ok u, w1) →
  w1 = with_fs (<[path := File d]> (fs w)) w.
Proof.
  rewrite write_file_run.
  destruct (fs w !! path) as [[|]|]; [discriminate|congruence..].
Qed.

Lemma mkdir_exist_ok_Ok_inv b p w u w1 :
  mkdir_exist_ok b p w = (Ok u, w1) →
  trace w1 = trace w ∧ ∀ q, is_file (fs w) q → is_file (fs w1) q.
Proof.
  unfold mkdir_exist_ok. rewrite get_fs_bind.
  destruct (fs w !! p) as [[|d]|] eqn:Hp; [|discriminate|];
    intros [= _ <-]; (split; [done|]); intros q [d' Hq]; exists d';
    rewrite fs_with_fs, lookup_insert_ne; congruence.
Qed.

Lemma for_each_mkdir_Ok_inv (l : list (string * string)) : ∀ w u w1,
  for_each l (λ bq, mkdir_exist_ok bq.1 bq.2) w = (Ok u, w1) →
  trace w1 = trace w ∧ ∀ q, is_file (fs w) q → is_file (fs w1) q.
Proof.
  induction l as [|[b p] l IH]; intros w u w1 H.
  - injection H as _ <-. done.
  - simpl in H. apply bind_Ok_inv in H as (u0 & w0 & H0 & H).
    apply mkdir_exist_ok_Ok_inv in H0 as [Ht0 Hf0].
    apply IH in H as [Ht Hf]. split; [congruence|]. eauto.
Qed.

Lemma makedirs_Ok_inv path w u w1 :
  makedirs E path w = (Ok u, w1) →
  trace w1 = trace w ++ [Makedirs path] ∧
  ∀ q, is_file (fs w) q → is_file (fs w1) q.
Proof.
  unfold makedirs. intros H.
  apply bind_Ok_inv in H as (u0 & w0 & H0 & H).
  apply external_Ok_inv in H0 as ->.
  apply for_each_mkdir_Ok_inv in H as [Ht Hf]. done.
Qed.

Lemma save_receipt_as_image_Ok_inv n w path w1 :
  save_receipt_as_image E n w = (Ok path, w1) →
  path = image_path n ∧
  trace w1 = trace w ++ [Screenshot "//div[@id='robot-preview-image']" (image_path n)] ∧
  fs w1 = <[image_path n := File (PngOf "//div[@id='robot-preview-image']")]> (fs w).
Proof.
  unfold save_receipt_as_image, locator_screenshot. fold (image_path n).
  intros H.
  apply bind_Ok_inv in H as (u0 & w0 & H0 & H). injection H as <- <-.
  apply bind_Ok_inv in H0 as (u & w2 & H2 & H0).
  apply external_Ok_inv in H2 as ->.
  apply write_file_Ok_inv in H0 as ->. done.
Qed.

Lemma store_receipt_as_pdf_Ok_inv n img w u w1 :
  store_receipt_as_pdf E n img w = (Ok u, w1) →
  trace w1 = trace w ++
    [InnerHtml "//div[@id='receipt']";
     HtmlToPdf (text E (trace w ++ [InnerHtml "//div[@id='receipt']"])) (pdf_path n);
     AddWatermark img (pdf_path n) (stamped_pdf_path n);
     Log INFO (ReceiptSaved n)] ∧
  fs w1 = <[stamped_pdf_path n := File (PdfStamped (pdf_path n) img)]>
            (<[pdf_path n :=
                 File (PdfOf (text E (trace w ++ [InnerHtml "//div[@id='receipt']"])))]>
               (fs w)).
Proof.
  unfold store_receipt_as_pdf, locator_inner_html, html_to_pdf,
    add_watermark_image_to_pdf.
  fold (pdf_path n). fold (stamped_pdf_path n).
  intros H.
  apply bind_Ok_inv in H as (html & w2 & H2 & H).
  apply bind_Ok_inv in H2 as (u2 & w2' & H2' & H2).
  apply external_Ok_inv in H2' as ->.
  rewrite history_bind in H2. injection H2 as <- <-.
  apply bind_Ok_inv in H as (u3 & w3 & H3 & H).
  apply bind_Ok_inv in H3 as (u3' & w3' & H3' & H3).
  apply external_Ok_inv in H3' as ->.
  apply write_file_Ok_inv in H3 as ->.
  apply bind_Ok_inv in H as (u4 & w4 & H4 & H).
  apply bind_Ok_inv in H4 as (u4' & w4' & H4' & H4).
  apply external_Ok_inv in H4' as ->.
  rewrite get_fs_bind in H4.
  destruct (fs _ !! pdf_path n) as [[|?]|]; try discriminate.
  destruct (fs _ !! img) as [[|?]|]; try discriminate.
  apply write_file_Ok_inv in H4 as ->.
  rewrite log_run in H. injection H as <- <-.
  split.
  - repeat rewrite ?trace_extend, ?trace_with_fs.
    rewrite <- !app_assoc. reflexivity.
  - by rewrite fs_extend, fs_with_fs.
Qed.

Lemma images_written_app t1 t2 :
  images_written (t1 ++ t2) = images_written t1 ++ images_written t2.
Proof. apply omap_app. Qed.

Lemma pdfs_written_app t1 t2 :
  pdfs_written (t1 ++ t2) = pdfs_written t1 ++ pdfs_written t2.
Proof. apply omap_app. Qed.

End Orders.

(** C8: for a row whose cells read 2, 3, 4 and "Evergreen 123" (as strings,
    or as the integers [pd.read_csv] makes of them), a completed run of the
    form driver selects head "2", checks [id-body-3], fills "4" into the
    legs input and "Evergreen 123" into the address input, fills no other
    field, submits (at least one click on the Order button, until a look
    after a click finds no alert), then reads the badge and returns the
    text it shows at that point. *)
Theorem form_driver_fills_four_fields (E : env) (row : order_row) (w w' : world)
    (v : string) :
  py_str (Head row) = "2" →
  py_str (Body row) = "3" →
  py_str (Legs row) = "4" →
  Address row = "Evergreen 123" →
  fill_the_form_for_one_order E row w = (Ok v, w') →
  ∃ k,
    k < recursion_limit E ∧
    trace w' = trace w ++
      [SelectOption "//select[@id='head']" "2";
       CheckRadio "//input[@id='id-body-3']";
       Fill "//div[contains(label, 'Legs')]//input" "4";
       Fill "//input[@id='address']" "Evergreen 123"]
      ++ retry_rounds (S k) ++ [TextContent success_badge] ∧
    filter (λ ev, is_field_event ev = true)
      (retry_rounds (S k) ++ [TextContent success_badge]) = [] ∧
    visible E
      (trace w ++
       [SelectOption "//select[@id='head']" "2";
        CheckRadio "//input[@id='id-body-3']";
        Fill "//div[contains(label, 'Legs')]//input" "4";
        Fill "//input[@id='address']" "Evergreen 123"]
       ++ retry_rounds (S k)) = false ∧
    v = text E (trace w').
Proof.
  intros Hh Hb Hl Ha H.
  apply fill_the_form_Ok in H as (k & Hk & -> & Hv & ->).
  unfold field_calls in *. rewrite Hh, Hb, Hl, Ha in *. exists k.
  split_and!; try done.
  rewrite filter_app.
  replace (filter (λ ev, is_field_event ev = true) (retry_rounds (S k)))
    with (@nil event); [done|].
  symmetry. apply filter_none. clear.
  induction (S k) as [|m IH]; [by constructor|].
  change (retry_rounds (S m)) with (retry_round ++ retry_rounds m).
  apply Forall_app. split; [by forall_list idtac|done].
Qed.

(** ** Paths and the archive *)

Lemma string_app_cons c s t : String c s +:+ t = String c (s +:+ t).
Proof. reflexivity. Qed.

Lemma string_app_nil_l s : "" +:+ s = s.
Proof. reflexivity. Qed.

Lemma string_app_nil_r s : s +:+ "" = s.
Proof. induction s as [|c s IH]; [done|]. by rewrite string_app_cons, IH. Qed.

Lemma string_app_assoc a b c : (a +:+ b) +:+ c = a +:+ (b +:+ c).
Proof.
  induction a as [|x a IH]; [done|]. by rewrite !string_app_cons, IH.
Qed.

Lemma prefix_app s q : String.prefix s (s +:+ q) = true.
Proof.
  induction s as [|c s IH].
  - by destruct q.
  - rewrite string_app_cons. simpl. by destruct (ascii_dec c c).
Qed.

Lemma prefix_inv s : ∀ p, String.prefix s p = true → ∃ q, p = s +:+ q.
Proof.
  induction s as [|c s IH]; intros p H.
  - by exists p.
  - destruct p as [|d p]; [discriminate|]. simpl in H.
    destruct (ascii_dec c d) as [->|]; [|discriminate].
    destruct (IH p H) as [q ->]. by exists q.
Qed.

(** A path ends with its base name. *)
Lemma basename_from_suffix p : ∀ acc, ∃ x, acc +:+ p = x +:+ basename_from acc p.
Proof.
  induction p as [|c p IH]; intros acc; simpl.
  - exists "". by rewrite string_app_nil_r.
  - destruct (Ascii.eqb c slash).
    + destruct (IH "") as [x Hx]. rewrite string_app_nil_l in Hx.
      exists (acc +:+ String c x).
      by rewrite string_app_assoc, string_app_cons, <- Hx.
    + destruct (IH (acc +:+ String c "")) as [x Hx].
      exists x. by rewrite <- Hx, string_app_assoc.
Qed.

(** The extension stays at the end of the base name. *)
Lemma basename_from_pdf pre : ∀ acc,
  basename_from acc (pre +:+ ".pdf") = basename_from acc pre +:+ ".pdf".
Proof.
  induction pre as [|c pre IH]; intros acc.
  - simpl. by rewrite !string_app_assoc.
  - rewrite string_app_cons. simpl. destruct (Ascii.eqb c slash); apply IH.
Qed.

(** A literal character of the pattern consumes the same character of the
    name. *)
Lemma fnmatch_literal c pat s :
  Ascii.eqb c "*" = false →
  Ascii.eqb c "?" = false →
  fnmatch (String c pat) s = true →
  ∃ s', s = String c s' ∧ fnmatch pat s' = true.
Proof.
  intros H1 H2. cbn [fnmatch]. rewrite H1, H2.
  destruct s as [|d s']; [done|]. rewrite orb_false_l.
  intros [->%Ascii.eqb_eq H]%andb_prop. eauto.
Qed.

Lemma fnmatch_dot_pdf s : fnmatch ".pdf" s = true ↔ s = ".pdf".
Proof.
  split; [|by intros ->]. intros H.
  apply fnmatch_literal in H as (s1 & -> & H); [|done..].
  apply fnmatch_literal in H as (s2 & -> & H); [|done..].
  apply fnmatch_literal in H as (s3 & -> & H); [|done..].
  apply fnmatch_literal in H as (s4 & -> & H); [|done..].
  by destruct s4.
Qed.

Lemma fnmatch_star_pdf_cons c s :
  fnmatch "*.pdf" (String c s) = fnmatch ".pdf" (String c s) || fnmatch "*.pdf" s.
Proof. reflexivity. Qed.

(** [*.pdf] matches the names that end in [.pdf]. *)
Lemma fnmatch_star_pdf s : fnmatch "*.pdf" s = true ↔ ∃ pre, s = pre +:+ ".pdf".
Proof.
  induction s as [|c s IH].
  - split; [discriminate|]. intros [[|d pre] H]; discriminate.
  - rewrite fnmatch_star_pdf_cons, orb_true_iff, fnmatch_dot_pdf, IH. split.
    + intros [H|[pre ->]]; [by exists ""; rewrite H|by exists (String c pre)].
    + intros [[|d pre] H]; [by left|].
      rewrite string_app_cons in H. injection H as -> ->. right. by exists pre.
Qed.

Lemma receipt_pdf_listed p d :
  is_listed "temp/receipts" true "*.pdf" (p, File d) = true ↔ receipt_pdf p.
Proof.
  unfold is_listed, under, receipt_pdf. simpl fst. simpl snd.
  rewrite orb_true_l, andb_true_r, andb_true_iff, fnmatch_star_pdf.
  change ("temp/receipts" +:+ "/") with "temp/receipts/".
  split.
  - intros [Hu [pre Hb]]. split; [by apply prefix_inv|].
    destruct (basename_from_suffix p "") as [x Hx].
    rewrite string_app_nil_l in Hx. fold (basename p) in Hx.
    exists (x +:+ pre). by rewrite string_app_assoc, <- Hb.
  - intros [[q ->] [pre Hp]]. split; [apply prefix_app|].
    rewrite Hp. unfold basename. rewrite basename_from_pdf. eauto.
Qed.

Lemma elem_of_list_files (f : gmap string node) folder recursive include p :
  p ∈ list_files_in_directory f folder recursive include ↔
  ∃ d, f !! p = Some (File d) ∧ is_listed folder recursive include (p, File d) = true.
Proof.
  unfold list_files_in_directory. rewrite list_elem_of_fmap. split.
  - intros ([q n] & -> & [Hl Hin]%list_elem_of_filter).
    apply elem_of_map_to_list in Hin. simpl.
    destruct n as [|d]; [done|]. exists d. split; [done|].
    by apply Is_true_true.
  - intros (d & Hf & Hl). exists (p, File d). split; [done|].
    apply list_elem_of_filter. split; [by apply Is_true_true|].
    by apply elem_of_map_to_list.
Qed.

Lemma NoDup_list_files (f : gmap string node) folder recursive include :
  NoDup (list_files_in_directory f folder recursive include).
Proof.
  unfold list_files_in_directory.
  eapply sublist_NoDup; [apply (NoDup_fst_map_to_list f)|].
  apply fmap_sublist, sublist_filter.
Qed.

Lemma can_create_zip (f : gmap string node) :
  can_create f "output/receipts.zip" = true ↔
  f !! "output" = Some Dir ∧ f !! "output/receipts.zip" ≠ Some Dir.
Proof.
  unfold can_create.
  change (parent_dir "output/receipts.zip") with (Some "output"). cbv beta iota.
  destruct (f !! "output") as [[|?]|]; destruct (f !! "output/receipts.zip") as [[|?]|];
    simpl; split; try done; try (by intros [? ?]).
Qed.

Lemma zip_outcome_failure fault filelist :
  (zip_outcome fault filelist).2 = None ↔
  ∀ i x, fault = Some (i, x) → List.length filelist ≤ i.
Proof.
  unfold zip_outcome. destruct fault as [[i x]|].
  - destruct (decide (i < List.length filelist)); simpl; split; try done.
    + intros H. specialize (H i x eq_refl). lia.
    + intros _ i' x' [= <- <-]. lia.
  - split; [by intros _ i x|done].
Qed.

(** C4: the archive step completes exactly when the archive call does not
    fail, at least one PDF receipt is there (the library refuses an empty
    file list), the target can be opened ([output] is a directory and the
    target is not one) and no member fails to be added; and the ZIP it then
    leaves at [output/receipts.zip] has, without repetition, exactly the
    regular files below [temp/receipts/] whose name ends in [.pdf] as
    members. *)
Theorem archive_holds_exactly_the_pdfs (E : env) (w : world) :
  ((∃ w', archive_receipts E w = (Ok tt, w')) ↔
   faults E (trace w ++ [archive_call]) = None ∧
   (∃ p, is_file (fs w) p ∧ receipt_pdf p) ∧
   fs w !! "output" = Some Dir ∧
   fs w !! "output/receipts.zip" ≠ Some Dir ∧
   ∀ i x, zip_fault E (trace w ++ [archive_call]) = Some (i, x) →
          List.length (list_files_in_directory (fs w) "temp/receipts" true "*.pdf") ≤ i) ∧
  ∀ w', archive_receipts E w = (Ok tt, w') →
    ∃ members,
      fs w' !! "output/receipts.zip" = Some (File (ZipOf members)) ∧
      NoDup members ∧
      ∀ p, p ∈ members ↔ is_file (fs w) p ∧ receipt_pdf p.
Proof.
  assert (Hmem : ∀ p, p ∈ list_files_in_directory (fs w) "temp/receipts" true "*.pdf"
                      ↔ is_file (fs w) p ∧ receipt_pdf p).
  { intros p. rewrite elem_of_list_files. unfold is_file. split.
    - intros (d & Hf & Hl). apply receipt_pdf_listed in Hl. eauto.
    - intros [[d Hf] Hr]. exists d. by rewrite receipt_pdf_listed. }
  assert (Hnd := NoDup_list_files (fs w) "temp/receipts" true "*.pdf").
  rewrite archive_receipts_run.
  destruct (faults E (trace w ++ [archive_call])) as [x|].
  { split; [|done]. split; [by intros [? ?]|by intros [? _]]. }
  destruct (list_files_in_directory _ _ _ _) as [|p0 l] eqn:Hl.
  { split; [|done]. split; [by intros [? ?]|]. intros (_ & (p & Hp) & _).
    apply Hmem in Hp. by apply elem_of_nil in Hp. }
  assert (Hp0 : is_file (fs w) p0 ∧ receipt_pdf p0).
  { apply Hmem. by left. }
  destruct (can_create (fs w) "output/receipts.zip") eqn:Hc.
  2:{ split; [|done]. split; [by intros [? ?]|]. intros (_ & _ & Ho & Hz & _).
      assert (Ht : can_create (fs w) "output/receipts.zip" = true)
        by by apply can_create_zip.
      congruence. }
  apply can_create_zip in Hc as [Ho Hnd'].
  destruct (zip_outcome _ _) as [written [x|]] eqn:Hz.
  { split; [|done]. split; [by intros [? ?]|]. intros (_ & _ & _ & _ & Hzf).
    pose proof (proj2 (zip_outcome_failure _ _) Hzf) as Hz'.
    rewrite Hz in Hz'. discriminate. }
  assert (Hzf : (zip_outcome (zip_fault E (trace w ++ [archive_call])) (p0 :: l)).2 = None)
    by by rewrite Hz.
  pose proof (proj1 (zip_outcome_failure _ _) Hzf) as Hzf'.
  apply zip_outcome_complete in Hz as ->. split.
  - split; [|by eauto]. intros _. split_and!; [done|by eauto|done|done|done].
  - intros w' [= <-]. exists (p0 :: l).
    rewrite fs_extend, fs_with_fs, lookup_insert_eq. done.
Qed.

(** ** The theorems at concrete inputs *)

Lemma retry_bound_not_enforced_witness :
  (∃ w', click_order_button_with_retry env_three_alerts 1000 (RowSeries row8) 0 w_empty
         = (Ok tt, w') ∧ submit_clicks (trace w') = 4) ∧
  (∃ w', click_order_button_with_retry env_stuck 1000 (RowSeries row8) 0 w_empty
         = (Raise RecursionError, w') ∧ submit_clicks (trace w') = 1000).
Proof.
  split.
  - destruct (retry_bound_not_enforced env_three_alerts row8 w_empty 1000)
      as [H _]; [reflexivity | change (Z.to_nat (MAX_RETRIES + 1)) with 4; lia |].
    destruct H as (w' & H1 & H2).
    + intros t Ht. simpl in *. apply bool_decide_eq_true_2. lia.
    + intros t Ht. simpl in *. apply bool_decide_eq_false_2. lia.
    + exists w'. split; [exact H1 | exact H2].
  - destruct (retry_bound_not_enforced env_stuck row8 w_empty 1000)
      as [_ H]; [reflexivity | change (Z.to_nat (MAX_RETRIES + 1)) with 4; lia |].
    destruct H as (w' & H1 & H2 & _); [reflexivity|].
    exists w'. split; [exact H1 | exact H2].
Defined.

Lemma retry_count_never_advances_witness :
  ∃ e w', click_order_button_with_retry env_stuck 1000 (RowSeries row8) 0 w_empty
          = (Raise e, w').
Proof.
  destruct (retry_count_never_advances env_stuck 1000 (RowSeries row8) 0 w_empty)
    as (_ & (e & w' & H & _) & _).
  - unfold MAX_RETRIES. lia.
  - reflexivity.
  - exists e, w'. exact H.
Defined.

Lemma http_error_stops_before_browser_witness :
  ∃ e w' t,
    order_robots_from_RobotSpareBin env_500 w_empty = (Raise e, w') ∧
    (faults env_500 (trace w_empty ++ [HttpGet CSV_URL]) = None → e = HTTPError 500) ∧
    trace w' = trace w_empty ++ HttpGet CSV_URL :: t ∧
    Forall (λ ev, is_browser_event ev = false) t ∧
    fs w' ⊆ fs w_empty.
Proof.
  apply (http_error_stops_before_browser env_500 w_empty). simpl. lia.
Defined.

Lemma form_driver_fills_four_fields_witness :
  (fill_the_form_for_one_order env_ok row8_parsed w_empty).1 = Ok "RSB-ROBO-ORDER-7" ∧
  ∃ k,
    trace (fill_the_form_for_one_order env_ok row8_parsed w_empty).2 =
    trace w_empty ++
      [SelectOption "//select[@id='head']" "2";
       CheckRadio "//input[@id='id-body-3']";
       Fill "//div[contains(label, 'Legs')]//input" "4";
       Fill "//input[@id='address']" "Evergreen 123"]
      ++ retry_rounds (S k) ++ [TextContent success_badge] ∧
    "RSB-ROBO-ORDER-7"
    = text env_ok (trace (fill_the_form_for_one_order env_ok row8_parsed w_empty).2).
Proof.
  assert (H1 : (fill_the_form_for_one_order env_ok row8_parsed w_empty).1
               = Ok "RSB-ROBO-ORDER-7") by (vm_compute; reflexivity).
  split; [exact H1|].
  destruct (form_driver_fills_four_fields env_ok row8_parsed w_empty _ _
              eq_refl eq_refl eq_refl eq_refl (pair_eta_fst _ _ H1))
    as (k & _ & Ht & _ & _ & Hv).
  exists k. split; [exact Ht | exact Hv].
Defined.

Lemma empty_table_still_archives_witness :
  order_robots_body env_no_rows w_empty
  = archive_receipts env_no_rows (extend w_empty [HttpGet CSV_URL; ReadCsv]) ∧
  fs (extend w_empty [HttpGet CSV_URL; ReadCsv]) !! "temp/receipts" = None.
Proof.
  destruct (empty_table_still_archives env_no_rows w_empty) as (H1 & H2 & _).
  - reflexivity.
  - simpl. lia.
  - reflexivity.
  - reflexivity.
  - reflexivity.
  - split; [exact H1 | exact H2].
Defined.


(** ** Invariants of every run *)

Section Steps.
Context (R : relation world) `{!PreOrder R}.

Lemma steps_ret {A} (a : A) : steps R (mret a : M A).
Proof. intros w. simpl. reflexivity. Qed.

Lemma steps_raise {A} e : steps R (raise e : M A).
Proof. intros w. simpl. reflexivity. Qed.

Lemma steps_bind {A B} (m : M A) (f : A → M B) :
  steps R m → (∀ a, steps R (f a)) → steps R (m ≫= f).
Proof.
  intros Hm Hf w. rewrite bind_run. specialize (Hm w).
  destruct (m w) as [[a|e] w1]; simpl in *; [|done].
  etrans; [exact Hm|]. apply Hf.
Qed.

Lemma steps_for_each {A} (l : list A) (body : A → M unit) :
  (∀ x, x ∈ l → steps R (body x)) → steps R (for_each l body).
Proof.
  induction l as [|x l IH]; intros H.
  - apply steps_ret.
  - simpl. apply steps_bind.
    + apply H. by left.
    + intros _. apply IH. intros y Hy. apply H. by right.
Qed.

End Steps.

#[local] Instance order_progress_preorder : PreOrder order_progress.
Proof.
  split.
  - intros w. split_and!; try done. exists []. by rewrite app_nil_r.
  - intros w1 w2 w3 (Ho1 & Hd1 & Hf1 & t1 & Ht1 & HP1) (Ho2 & Hd2 & Hf2 & t2 & Ht2 & HP2).
    split_and!.
    + intros p Hp. by rewrite Ho2, Ho1.
    + eauto.
    + eauto.
    + exists (t1 ++ t2). split; [by rewrite Ht2, Ht1, app_assoc|].
      by apply Forall_app.
Qed.

Lemma progress_ret {A} (a : A) : steps order_progress (mret a : M A).
Proof. exact (steps_ret order_progress a). Qed.

Lemma progress_bind {A B} (m : M A) (f : A → M B) :
  steps order_progress m → (∀ a, steps order_progress (f a)) →
  steps order_progress (m ≫= f).
Proof. exact (steps_bind order_progress m f). Qed.

Lemma progress_for_each {A} (l : list A) (body : A → M unit) :
  (∀ x, x ∈ l → steps order_progress (body x)) →
  steps order_progress (for_each l body).
Proof. exact (steps_for_each order_progress l body). Qed.

Section OrderProgress.
Context (E : env).

Lemma progress_extend w t :
  Forall (λ e, is_order_event e = true) t → order_progress w (extend w t).
Proof. intros H. split_and!; try done. by exists t. Qed.

Lemma progress_external e :
  is_order_event e = true → steps order_progress (external E e).
Proof.
  intros He w. rewrite external_run.
  destruct (faults E _); apply progress_extend; by forall_list idtac.
Qed.

Lemma elem_of_with_blame l : ∀ bq, bq ∈ with_blame l → bq.2 ∈ l.
Proof.
  induction l as [|q l IH]; intros bq H; [by apply elem_of_nil in H|].
  simpl in H. apply elem_of_cons in H as [->|H]; [by left|].
  right. by apply IH.
Qed.

Lemma progress_mkdir b q :
  in_temp_tree q → steps order_progress (mkdir_exist_ok b q).
Proof.
  intros Hq w. unfold mkdir_exist_ok. rewrite get_fs_bind.
  destruct (fs w !! q) as [[|d]|] eqn:Hfq; [|reflexivity|].
  - split_and!; simpl.
    + intros p Hp. rewrite lookup_insert_ne; [done|]. by intros ->.
    + intros p Hp. destruct (decide (q = p)) as [->|];
        [by rewrite lookup_insert_eq|by rewrite lookup_insert_ne].
    + intros p [d Hp]. exists d. rewrite lookup_insert_ne; congruence.
    + exists []. by rewrite app_nil_r.
  - split_and!; simpl.
    + intros p Hp. rewrite lookup_insert_ne; [done|]. by intros ->.
    + intros p Hp. destruct (decide (q = p)) as [->|];
        [by rewrite lookup_insert_eq|by rewrite lookup_insert_ne].
    + intros p [d Hp]. exists d. rewrite lookup_insert_ne; congruence.
    + exists []. by rewrite app_nil_r.
Qed.

Lemma progress_write_file p d :
  in_temp_tree p → steps order_progress (write_file p d).
Proof.
  intros Hp w. rewrite write_file_run.
  assert (Hgo : fs w !! p ≠ Some Dir →
                order_progress w (with_fs (<[p := File d]> (fs w)) w)).
  { intros Hnd. split_and!; simpl.
    - intros q Hq. rewrite lookup_insert_ne; [done|]. by intros ->.
    - intros q Hq. rewrite lookup_insert_ne; congruence.
    - intros q Hq. by apply is_file_insert.
    - exists []. by rewrite app_nil_r. }
  destruct (fs w !! p) as [[|d']|] eqn:Hfp; [reflexivity|by apply Hgo..].
Qed.

Lemma progress_makedirs path :
  (∀ q, q ∈ dir_chain path → in_temp_tree q) →
  steps order_progress (makedirs E path).
Proof.
  intros H. unfold makedirs. apply progress_bind; [by apply progress_external|].
  intros _. apply progress_for_each. intros bq Hq.
  by apply progress_mkdir, H, elem_of_with_blame.
Qed.

Lemma progress_retry depth row count :
  steps order_progress (click_order_button_with_retry E depth row count).
Proof.
  intros w. destruct (retry_events E depth row count w) as (t & -> & HP).
  apply progress_extend. eapply Forall_impl; [exact HP|].
  by intros e [->|[->|[[-> _]|[n ->]]]].
Qed.

Lemma progress_history_ret {A} (f : list event → A) :
  steps order_progress (h ← history; mret (f h)).
Proof. intros w. reflexivity. Qed.

Lemma progress_fill_the_form row :
  steps order_progress (fill_the_form_for_one_order E row).
Proof.
  unfold fill_the_form_for_one_order, page_select_option, page_check, page_fill,
    page_text_content.
  do 4 (apply progress_bind; [by apply progress_external|intros _]).
  apply progress_bind; [apply progress_retry|intros _].
  apply progress_bind; [by apply progress_external|intros _].
  apply progress_history_ret.
Qed.

Lemma image_path_in_temp n : in_temp_tree (image_path n).
Proof. right. reflexivity. Qed.

Lemma pdf_path_in_temp n : in_temp_tree (pdf_path n).
Proof. right. reflexivity. Qed.

Lemma stamped_pdf_path_in_temp n : in_temp_tree (stamped_pdf_path n).
Proof. right. reflexivity. Qed.

Lemma progress_save_image n :
  steps order_progress (save_receipt_as_image E n).
Proof.
  unfold save_receipt_as_image, locator_screenshot. fold (image_path n).
  apply progress_bind; [|intros ?; apply progress_ret].
  apply progress_bind; [by apply progress_external|].
  intros _. apply progress_write_file, image_path_in_temp.
Qed.

Lemma progress_add_watermark n img :
  steps order_progress
    (add_watermark_image_to_pdf E img (pdf_path n) (stamped_pdf_path n)).
Proof.
  unfold add_watermark_image_to_pdf.
  apply progress_bind; [by apply progress_external|]. intros _ w.
  rewrite get_fs_bind.
  destruct (fs w !! pdf_path n) as [[|?]|]; try reflexivity.
  destruct (fs w !! img) as [[|?]|]; try reflexivity.
  apply progress_write_file, stamped_pdf_path_in_temp.
Qed.

Lemma progress_store_pdf n img :
  steps order_progress (store_receipt_as_pdf E n img).
Proof.
  unfold store_receipt_as_pdf, locator_inner_html, html_to_pdf.
  fold (pdf_path n). fold (stamped_pdf_path n).
  apply progress_bind.
  { apply progress_bind; [by apply progress_external|].
    intros _. apply progress_history_ret. }
  intros html. apply progress_bind.
  { apply progress_bind; [by apply progress_external|].
    intros _. apply progress_write_file, pdf_path_in_temp. }
  intros _. apply progress_bind; [apply progress_add_watermark|].
  intros _ w. rewrite log_run. apply progress_extend. by forall_list idtac.
Qed.

Lemma dir_chain_receipts q :
  q ∈ dir_chain "temp/receipts" → in_temp_tree q.
Proof.
  change (dir_chain "temp/receipts") with ["temp"; "temp/receipts"].
  intros [->|[->|[]%elem_of_nil]%elem_of_cons]%elem_of_cons; [by left|by right].
Qed.

Lemma dir_chain_receipts_images q :
  q ∈ dir_chain "temp/receipts_images" → in_temp_tree q.
Proof.
  change (dir_chain "temp/receipts_images") with ["temp"; "temp/receipts_images"].
  intros [->|[->|[]%elem_of_nil]%elem_of_cons]%elem_of_cons; [by left|by right].
Qed.

Lemma progress_process_order row : steps order_progress (process_order E row).
Proof.
  unfold process_order, close_annoying_modal, browser_goto, page_click, page_close.
  apply progress_bind; [apply progress_makedirs, dir_chain_receipts|intros _].
  apply progress_bind; [apply progress_makedirs, dir_chain_receipts_images|intros _].
  apply progress_bind; [by apply progress_external|intros _].
  apply progress_bind; [by apply progress_external|intros _].
  apply progress_bind; [apply progress_fill_the_form|intros n].
  apply progress_bind; [apply progress_save_image|intros img].
  apply progress_bind; [apply progress_store_pdf|intros _].
  by apply progress_external.
Qed.

Lemma progress_loop orders :
  steps order_progress (fill_the_form_and_store_receipts E orders).
Proof.
  unfold fill_the_form_and_store_receipts.
  apply progress_for_each. intros row _.
  apply progress_process_order.
Qed.

End OrderProgress.


(** X2: the loop is fail-fast: when the rows before [row] go through and
    the pass for [row] raises, the loop ends with that exception in the
    world where the pass stopped, so no later row is touched. *)
Theorem loop_stops_at_first_failure (E : env) (before : list order_row)
    (row : order_row) (rest : list order_row) (w w1 w2 : world) (e : exn) :
  fill_the_form_and_store_receipts E before w = (Ok tt, w1) →
  process_order E row w1 = (Raise e, w2) →
  fill_the_form_and_store_receipts E (before ++ row :: rest) w = (Raise e, w2).
Proof.
  unfold fill_the_form_and_store_receipts. revert w.
  induction before as [|r before IH]; intros w Hd Hr.
  - injection Hd as <-. simpl. by rewrite bind_run, Hr.
  - simpl in Hd. apply bind_Ok_inv in Hd as ([] & w0 & H0 & Hd).
    simpl. rewrite bind_run, H0. by apply IH.
Qed.

(** X3: [get_orders] writes nothing to the file system, whatever its
    outcome, and makes at most two calls: the GET, then the parse; rows it
    returns are the parsed ones. *)
Theorem get_orders_touches_no_file (E : env) (w : world) :
  fs (get_orders E w).2 = fs w ∧
  (trace (get_orders E w).2 = trace w ++ [HttpGet CSV_URL] ∨
   trace (get_orders E w).2 = trace w ++ [HttpGet CSV_URL; ReadCsv]) ∧
  ∀ rows, (get_orders E w).1 = Ok rows →
          rows = csv_rows E ∧ ¬ (400 ≤ http_status E < 600)%Z.
Proof.
  rewrite get_orders_run.
  destruct (faults E (trace w ++ [HttpGet CSV_URL])).
  { split_and!; [done|by left|done]. }
  destruct (Z.leb_spec 400 (http_status E)) as [Hle|Hlt];
    [destruct (Z.ltb_spec (http_status E) 600) as [Hlt|Hge]|]; simpl.
  - split_and!; [done|by left|done].
  - destruct (faults E _); (split_and!; [done|by right|]); [done|].
    intros rows [= <-]. split; [done|lia].
  - destruct (faults E _); (split_and!; [done|by right|]); [done|].
    intros rows [= <-]. split; [done|lia].
Qed.

Lemma cleanup_frame (E : env) (w : world) :
  (∀ p, ¬ in_temp_tree p → fs (cleanup E w).2 !! p = fs w !! p) ∧
  fs (cleanup E w).2 ⊆ fs w ∧
  ∃ t, trace (cleanup E w).2 = trace w ++ t ∧
       (t = [] ∨ ∃ r, t = [Rmtree "temp"; Log INFO r] ∨ t = [Rmtree "temp"; Log ERROR r]).
Proof.
  rewrite cleanup_run. destruct (fs w !! "temp") as [n|] eqn:Hn.
  2:{ split_and!; [done..|]. exists []. rewrite app_nil_r. eauto. }
  rewrite rmtree_run.
  destruct (faults E (trace w ++ [Rmtree "temp"])) as [x|].
  { split_and!; [done..|]. eexists. simpl. rewrite <- app_assoc.
    split; [reflexivity|]. right. eauto. }
  rewrite Hn. destruct n as [|d].
  - split_and!.
    + intros p Hp. simpl. unfold without_tree.
      destruct (fs w !! p) as [x|] eqn:Hfp.
      * apply map_lookup_filter_Some. split; [done|]. exact Hp.
      * apply map_lookup_filter_None. by left.
    + apply map_filter_subseteq.
    + eexists. simpl. rewrite <- app_assoc. split; [reflexivity|]. right. eauto.
  - split_and!; [done..|]. eexists. simpl. rewrite <- app_assoc.
    split; [reflexivity|]. right. eauto.
Qed.

(** X4: [cleanup] changes nothing outside the [temp] tree and adds
    nothing anywhere, whatever its outcome; it records at most the deletion
    and one log record. *)
Theorem cleanup_confined_to_temp (E : env) (w : world) :
  (∀ p, ¬ in_temp_tree p → fs (cleanup E w).2 !! p = fs w !! p) ∧
  fs (cleanup E w).2 ⊆ fs w ∧
  ∃ t, trace (cleanup E w).2 = trace w ++ t ∧
       (t = [] ∨ ∃ r, t = [Rmtree "temp"; Log INFO r] ∨ t = [Rmtree "temp"; Log ERROR r]).
Proof. apply cleanup_frame. Qed.

(** X5: the archive step touches no path but [output/receipts.zip],
    whatever its outcome, so the receipts stay where they are; and it logs
    that the receipts were archived only when the archive call returned:
    the record follows the call in the runs that end normally and in no
    other. *)
Theorem archive_touches_only_the_zip (E : env) (w : world) :
  (∀ p, p ≠ "output/receipts.zip" →
        fs (archive_receipts E w).2 !! p = fs w !! p) ∧
  trace (archive_receipts E w).2 =
  trace w ++ archive_call ::
    match (archive_receipts E w).1 with
    | Ok _ => [Log INFO ReceiptsArchived]
    | Raise _ => []
    end.
Proof.
  rewrite archive_receipts_run.
  destruct (faults E (trace w ++ [archive_call])) as [x|]; [done|].
  destruct (list_files_in_directory _ _ _ _) as [|p0 l]; [done|].
  destruct (can_create (fs w) "output/receipts.zip"); [|done].
  destruct (zip_outcome _ _) as [written [x|]].
  - split; [|done]. intros p Hp. simpl. by rewrite lookup_insert_ne.
  - split; [|done]. intros p Hp. simpl. by rewrite lookup_insert_ne.
Qed.

(** ** The pipeline end to end *)

Lemma zip_not_in_temp : ¬ in_temp_tree "output/receipts.zip".
Proof. intros [H|H]; discriminate. Qed.

Lemma temp_in_temp : in_temp_tree "temp".
Proof. by left. Qed.

Lemma get_orders_Ok_inv E w rows w1 :
  get_orders E w = (Ok rows, w1) →
  rows = csv_rows E ∧ w1 = extend w [HttpGet CSV_URL; ReadCsv].
Proof.
  rewrite get_orders_run.
  destruct (faults E _); [discriminate|].
  destruct (_ && _); [discriminate|].
  destruct (faults E _); [discriminate|]. by intros [= <- <-].
Qed.






(** X6: when the fetch succeeds and the loop over the rows raises, the task
    ends with that exception, the archive call is never made and
    [output/receipts.zip] is what it was before the run. *)
Theorem partial_batch_is_never_archived (E : env) (w w1 w2 : world)
    (rows : list order_row) (e : exn) :
  get_orders E w = (Ok rows, w1) →
  fill_the_form_and_store_receipts E rows w1 = (Raise e, w2) →
  ∃ w' t,
    order_robots_from_RobotSpareBin E w = (Raise e, w') ∧
    trace w' = trace w ++ t ∧
    Forall (λ ev, ev ≠ archive_call) t ∧
    fs w' !! "output/receipts.zip" = fs w !! "output/receipts.zip".
Proof.
  intros Hg Hl.
  assert (Hb : order_robots_body E w = (Raise e, w2)).
  { unfold order_robots_body. by rewrite bind_run, Hg, bind_run, Hl. }
  apply get_orders_Ok_inv in Hg as [-> ->].
  destruct (progress_loop E (csv_rows E) (extend w [HttpGet CSV_URL; ReadCsv]))
    as (Ho & _ & _ & t & Ht & HP).
  rewrite Hl in Ho, Ht. simpl in Ho, Ht.
  destruct (cleanup_frame E w2) as (Hc & _ & tc & Htc & Hcases).
  exists (cleanup E w2).2, ([HttpGet CSV_URL; ReadCsv] ++ t ++ tc).
  rewrite task_run, Hb. simpl fst. simpl snd. split_and!.
  - done.
  - by rewrite Htc, Ht, <- !app_assoc.
  - apply Forall_app. split; [by forall_list idtac|].
    apply Forall_app. split.
    + eapply Forall_impl; [exact HP|]. by intros ev Hev ->.
    + destruct Hcases as [->|[r [->| ->]]]; by forall_list idtac.
  - rewrite Hc by apply zip_not_in_temp. by rewrite Ho by apply zip_not_in_temp.
Qed.








(** ** More on the form driver and the retry helper *)

(** X9: the form driver never submits a partly filled form: in every run,
    whatever fails, the Order button is clicked only after the four field
    calls of the row have been made, in the order of the source. *)
Theorem order_button_clicked_only_after_fields (E : env) (row : order_row)
    (w : world) :
  ∃ t, (fill_the_form_for_one_order E row w).2 = extend w t ∧
       (Click order_button ∈ t → ∃ t', t = field_calls row ++ t').
Proof.
  unfold fill_the_form_for_one_order, page_select_option, page_check, page_fill.
  rewrite bind_run, external_run. destruct (faults E _).
  { eexists. split; [reflexivity|].
    intros [[=]|[]%elem_of_nil]%elem_of_cons. }
  rewrite bind_run, external_run. destruct (faults E _).
  { eexists. split; [by rewrite extend_extend|]. simpl.
    intros [[=]|[[=]|[]%elem_of_nil]%elem_of_cons]%elem_of_cons. }
  rewrite bind_run, external_run. destruct (faults E _).
  { eexists. split; [by rewrite !extend_extend|]. simpl.
    intros [[=]|[[=]|[[=]|[]%elem_of_nil]%elem_of_cons]%elem_of_cons]%elem_of_cons. }
  rewrite bind_run, external_run. destruct (faults E _).
  { eexists. split; [by rewrite !extend_extend|]. simpl.
    intros [[=]|[[=]|[[=]|[[=]|[]%elem_of_nil]%elem_of_cons]%elem_of_cons]%elem_of_cons]%elem_of_cons. }
  rewrite !extend_extend. simpl app. fold (field_calls row).
  rewrite bind_run.
  destruct (retry_events E (recursion_limit E) (RowSeries row) 0
              (extend w (field_calls row))) as (t & Ht & _).
  destruct (click_order_button_with_retry _ _ _ _ _) as [[[]|x] w5];
    simpl in Ht; subst w5.
  - rewrite page_text_content_run. destruct (faults E _);
      (eexists; split; [by rewrite !extend_extend|eauto]).
  - eexists. split; [by rewrite extend_extend|eauto].
Qed.

(** X10: a run of the retry helper that starts within the bound and
    returns has made [k + 1] rounds for some [k] below the number of frames,
    each a click followed by a look at the alert, and nothing else; the
    alert was visible after each of the first [k] rounds and not after the
    last. *)
Theorem retry_returns_after_alert_clears (E : env) (depth : nat) (row : row_arg)
    (count : Z) (w w' : world) :
  (count ≤ MAX_RETRIES)%Z →
  click_order_button_with_retry E depth row count w = (Ok tt, w') →
  ∃ k, k < depth ∧
       w' = extend w (retry_rounds (S k)) ∧
       visible E (trace w') = false ∧
       ∀ j, j < k → visible E (trace w ++ retry_rounds (S j)) = true.
Proof.
  revert row count w. induction depth as [|depth IH]; intros row count w Hc H.
  { discriminate. }
  simpl click_order_button_with_retry in H. rewrite bind_run, activation_run in H.
  destruct (faults E (trace w ++ [Click order_button])); [discriminate|].
  destruct (decide (count > MAX_RETRIES)%Z); [lia|].
  destruct (faults E (trace w ++ retry_round)); [discriminate|].
  destruct (visible E (trace w ++ retry_round)) eqn:Hv.
  - apply IH in H as (k & Hk & -> & Hlast & Hvis); [|unfold MAX_RETRIES; lia].
    exists (S k). split; [lia|]. split; [by rewrite extend_extend|].
    split; [done|]. intros [|j] Hj.
    + exact Hv.
    + specialize (Hvis j ltac:(lia)).
      rewrite trace_extend, <- app_assoc in Hvis. exact Hvis.
  - injection H as <-. exists 0. split; [lia|].
    change (retry_rounds 1) with retry_round.
    split; [done|]. split; [done|]. intros j Hj. lia.
Qed.

(** X11: the guard sits after the click: called with a count over the
    bound, the helper still clicks once, then logs the failure with the row
    it was given and returns, without looking at the alert and whatever the
    alert shows. *)
Theorem retry_over_bound_clicks_once (E : env) (depth : nat) (row : row_arg)
    (count : Z) (w : world) :
  (count > MAX_RETRIES)%Z →
  faults E (trace w ++ [Click order_button]) = None →
  click_order_button_with_retry E (S depth) row count w =
  (Ok tt, extend w [Click order_button; Log ERROR (FailedClick row)]).
Proof.
  intros Hc Hf. simpl click_order_button_with_retry.
  rewrite bind_run, activation_run, Hf.
  by destruct (decide (count > MAX_RETRIES)%Z).
Qed.

(** ** The files of an order *)

Lemma string_length_app a b :
  String.length (a +:+ b) = String.length a + String.length b.
Proof.
  induction a as [|c a IH]; [done|]. rewrite string_app_cons. simpl. by rewrite IH.
Qed.

Lemma string_app_inj_r s : ∀ a b, a +:+ s = b +:+ s → a = b.
Proof.
  induction a as [|c a IH]; intros [|d b] H.
  - done.
  - apply (f_equal String.length) in H.
    rewrite !string_length_app in H. simpl in H. lia.
  - apply (f_equal String.length) in H.
    rewrite !string_length_app in H. simpl in H. lia.
  - rewrite !string_app_cons in H. injection H as -> H. f_equal. by apply IH.
Qed.

Lemma image_path_inj n m : image_path n = image_path m → n = m.
Proof.
  unfold image_path. intros H%(inj (String.append _)).
  by apply string_app_inj_r in H.
Qed.

Lemma pdf_path_inj n m : pdf_path n = pdf_path m → n = m.
Proof.
  unfold pdf_path. intros H%(inj (String.append _)).
  by apply string_app_inj_r in H.
Qed.

Lemma stamped_pdf_path_inj n m : stamped_pdf_path n = stamped_pdf_path m → n = m.
Proof.
  unfold stamped_pdf_path. intros H%(inj (String.append _)).
  by apply string_app_inj_r in H.
Qed.

Lemma pdf_path_ne_stamped n : pdf_path n ≠ stamped_pdf_path n.
Proof.
  unfold pdf_path, stamped_pdf_path. intros H%(inj (String.append _)).
  apply (inj (String.append _)) in H. discriminate.
Qed.

Lemma image_path_ne_pdf n m : image_path n ≠ pdf_path m.
Proof.
  intros H. apply (f_equal (String.prefix "temp/receipts/")) in H.
  change (false = true) in H. discriminate.
Qed.

Lemma image_path_ne_stamped n m : image_path n ≠ stamped_pdf_path m.
Proof.
  intros H. apply (f_equal (String.prefix "temp/receipts/")) in H.
  change (false = true) in H. discriminate.
Qed.

(** X13: different order numbers never share an image, a plain receipt or
    a stamped receipt; an image never shares its path with a receipt, and
    the stamped receipt of an order never overwrites its own plain one.
    The one overlap of the three families of names: the plain receipt of
    order [n] is the stamped receipt of order [m] exactly when [n] is [m]
    followed by [_with_robot_image]. *)
Theorem receipt_names_collide_only_by_suffix (n m : string) :
  (image_path n = image_path m → n = m) ∧
  (pdf_path n = pdf_path m → n = m) ∧
  (stamped_pdf_path n = stamped_pdf_path m → n = m) ∧
  image_path n ≠ pdf_path m ∧
  image_path n ≠ stamped_pdf_path m ∧
  pdf_path n ≠ stamped_pdf_path n ∧
  (pdf_path n = stamped_pdf_path m ↔ n = m +:+ "_with_robot_image").
Proof.
  split_and!.
  - apply image_path_inj.
  - apply pdf_path_inj.
  - apply stamped_pdf_path_inj.
  - apply image_path_ne_pdf.
  - apply image_path_ne_stamped.
  - apply pdf_path_ne_stamped.
  - unfold pdf_path, stamped_pdf_path. split.
    + intros H%(inj (String.append _)).
      change (m +:+ "_with_robot_image.pdf")
        with (m +:+ "_with_robot_image" +:+ ".pdf") in H.
      rewrite <- string_app_assoc in H. by apply string_app_inj_r in H.
    + intros ->. by rewrite string_app_assoc.
Qed.

(** ** The receipts of the orders read *)

Lemma order_numbers_read_cons E pre e t :
  order_numbers_read E pre (e :: t) =
  (if decide (e = TextContent success_badge) then [text E (pre ++ [e])] else [])
  ++ order_numbers_read E (pre ++ [e]) t.
Proof. reflexivity. Qed.

Lemma order_numbers_read_app E t1 : ∀ pre t2,
  order_numbers_read E pre (t1 ++ t2) =
  order_numbers_read E pre t1 ++ order_numbers_read E (pre ++ t1) t2.
Proof.
  induction t1 as [|e t1 IH]; intros pre t2.
  - by rewrite app_nil_r.
  - rewrite <- app_comm_cons, !order_numbers_read_cons, IH, <- !app_assoc.
    reflexivity.
Qed.

Lemma order_numbers_read_none E t : ∀ pre,
  Forall (λ e, e ≠ TextContent success_badge) t →
  order_numbers_read E pre t = [].
Proof.
  induction t as [|e t IH]; intros pre H; [done|].
  apply Forall_cons in H as [He Ht].
  rewrite order_numbers_read_cons, decide_False by done. by apply IH.
Qed.

Lemma retry_rounds_no_badge n :
  Forall (λ e, e ≠ TextContent success_badge) (retry_rounds n).
Proof.
  induction n as [|n IH]; [by constructor|].
  change (retry_rounds (S n)) with (retry_round ++ retry_rounds n).
  apply Forall_app. split; [by forall_list idtac|done].
Qed.

Lemma retry_rounds_no_write n :
  images_written (retry_rounds n) = [] ∧ pdfs_written (retry_rounds n) = [].
Proof. induction n as [|n [IH1 IH2]]; [done|]. simpl. done. Qed.

(** What a completed pass reads and writes, from its trace. *)
Lemma pass_observations E pre row k n html :
  order_numbers_read E pre (pass_until_badge row k ++ pass_after_badge n html)
  = [text E (pre ++ pass_until_badge row k)] ∧
  images_written (pass_until_badge row k ++ pass_after_badge n html)
  = [image_path n] ∧
  pdfs_written (pass_until_badge row k ++ pass_after_badge n html)
  = [pdf_path n; stamped_pdf_path n].
Proof.
  destruct (retry_rounds_no_write (S k)) as [Hi Hp].
  split_and!.
  - assert (∃ front, pass_until_badge row k
                     = front ++ [TextContent success_badge] ∧
              Forall (λ e, e ≠ TextContent success_badge) front)
      as (front & -> & Hfront).
    { eexists. unfold pass_until_badge. rewrite !app_assoc. split; [done|].
      repeat (apply Forall_app; split); try by forall_list idtac.
      apply retry_rounds_no_badge. }
    rewrite <- app_assoc, order_numbers_read_app.
    rewrite (order_numbers_read_none E front) by done.
    change ([TextContent success_badge] ++ pass_after_badge n html)
      with (TextContent success_badge :: pass_after_badge n html).
    rewrite order_numbers_read_cons, decide_True by done.
    rewrite (order_numbers_read_none E (pass_after_badge n html))
      by by forall_list idtac.
    by rewrite <- (app_assoc pre).
  - unfold pass_until_badge, images_written.
    rewrite !omap_app. fold (images_written (retry_rounds (S k))).
    rewrite Hi. reflexivity.
  - unfold pass_until_badge, pdfs_written.
    rewrite !omap_app. fold (pdfs_written (retry_rounds (S k))).
    rewrite Hp. reflexivity.
Qed.

(** One pass of the loop body that completes: its whole trace, with the
    order number [n] the badge gave and the receipt HTML [html] the page
    gave, and its three files. *)
Lemma process_order_Ok_inv E row w u w1 :
  process_order E row w = (Ok u, w1) →
  ∃ k n html,
    k < recursion_limit E ∧
    n = text E (trace w ++ pass_until_badge row k) ∧
    html = text E (trace w ++ pass_until_badge row k ++
                   [Screenshot "//div[@id='robot-preview-image']" (image_path n);
                    InnerHtml "//div[@id='receipt']"]) ∧
    trace w1 = trace w ++ pass_until_badge row k ++ pass_after_badge n html ∧
    fs w1 !! image_path n = Some (File (PngOf "//div[@id='robot-preview-image']")) ∧
    fs w1 !! pdf_path n = Some (File (PdfOf html)) ∧
    fs w1 !! stamped_pdf_path n
    = Some (File (PdfStamped (pdf_path n) (image_path n))) ∧
    ∀ q, is_file (fs w) q → is_file (fs w1) q.
Proof.
  unfold process_order, close_annoying_modal, browser_goto, page_click, page_close.
  intros H.
  apply bind_Ok_inv in H as (u1 & wa & Ha & H).
  apply makedirs_Ok_inv in Ha as [Hta Hfa].
  apply bind_Ok_inv in H as (u2 & wb & Hb & H).
  apply makedirs_Ok_inv in Hb as [Htb Hfb].
  apply bind_Ok_inv in H as (u3 & wc & Hc & H). apply external_Ok_inv in Hc as ->.
  apply bind_Ok_inv in H as (u4 & wd & Hd & H). apply external_Ok_inv in Hd as ->.
  apply bind_Ok_inv in H as (n & we & He & H).
  apply fill_the_form_Ok in He as (k & Hk & -> & _ & Hn).
  apply bind_Ok_inv in H as (img & wf & Hf & H).
  apply save_receipt_as_image_Ok_inv in Hf as (-> & Htf & Hff).
  apply bind_Ok_inv in H as (u5 & wg & Hg & H).
  apply store_receipt_as_pdf_Ok_inv in Hg as (Htg & Hfg).
  apply external_Ok_inv in H as ->.
  assert (Hpre : trace (extend (extend (extend wb [Goto ORDER_URL])
                                  [Click "//button[@class='btn btn-dark']"])
                          (field_calls row ++ retry_rounds (S k)
                           ++ [TextContent success_badge]))
                 = trace w ++ pass_until_badge row k).
  { rewrite !trace_extend, Htb, Hta. unfold pass_until_badge.
    rewrite <- !app_assoc. reflexivity. }
  rewrite Hpre in Hn, Htf. rewrite Htf in Htg, Hfg.
  exists k, n, (text E (trace wf ++ [InnerHtml "//div[@id='receipt']"])).
  rewrite Htf. split_and!.
  - done.
  - done.
  - by rewrite <- !app_assoc.
  - rewrite trace_extend, Htg. unfold pass_after_badge.
    rewrite <- !app_assoc. reflexivity.
  - rewrite fs_extend, Hfg, Hff.
    rewrite lookup_insert_ne by (symmetry; apply image_path_ne_stamped).
    rewrite lookup_insert_ne by (symmetry; apply image_path_ne_pdf).
    by rewrite lookup_insert_eq.
  - rewrite fs_extend, Hfg.
    rewrite lookup_insert_ne by (symmetry; apply pdf_path_ne_stamped).
    by rewrite lookup_insert_eq.
  - rewrite fs_extend, Hfg. by rewrite lookup_insert_eq.
  - intros q Hq. rewrite fs_extend, Hfg, Hff, !fs_extend.
    do 3 apply is_file_insert. eauto.
Qed.

(** The loop over the rows, when it completes: the order numbers read are
    one per row, and they name what was written. *)
Lemma loop_Ok_inv E orders : ∀ w u w',
  fill_the_form_and_store_receipts E orders w = (Ok u, w') →
  ∃ t,
    trace w' = trace w ++ t ∧
    List.length (order_numbers_read E (trace w) t) = List.length orders ∧
    images_written t = image_path <$> order_numbers_read E (trace w) t ∧
    pdfs_written t =
      order_numbers_read E (trace w) t ≫= (λ n, [pdf_path n; stamped_pdf_path n]) ∧
    (∀ n, n ∈ order_numbers_read E (trace w) t →
          is_file (fs w') (image_path n) ∧
          is_file (fs w') (pdf_path n) ∧
          is_file (fs w') (stamped_pdf_path n)) ∧
    ∀ q, is_file (fs w) q → is_file (fs w') q.
Proof.
  unfold fill_the_form_and_store_receipts.
  induction orders as [|row orders IH]; intros w u w' H.
  - injection H as <- <-. exists []. rewrite app_nil_r.
    split_and!; try done. intros n Hn. by apply elem_of_nil in Hn.
  - simpl in H. apply bind_Ok_inv in H as (u1 & w1 & H1 & H).
    apply process_order_Ok_inv in H1
      as (k & n & html & _ & Hn & _ & Ht1 & Hf1 & Hf2 & Hf3 & Hk1).
    apply IH in H as (t & Ht & Hlen & Hi & Hp & Hfiles & Hk).
    destruct (pass_observations E (trace w) row k n html) as (Ho & Hoi & Hop).
    rewrite <- Hn in Ho.
    exists ((pass_until_badge row k ++ pass_after_badge n html) ++ t).
    rewrite order_numbers_read_app, Ho. rewrite app_assoc, <- Ht1.
    split_and!.
    + by rewrite Ht, Ht1, <- !app_assoc.
    + simpl. by rewrite Hlen.
    + by rewrite images_written_app, Hoi, Hi.
    + by rewrite pdfs_written_app, Hop, Hp.
    + intros m [->|Hm]%elem_of_cons; [|by apply Hfiles].
      split_and!; apply Hk; eexists; eassumption.
    + eauto.
Qed.

(** C3 (amended): a pass of the loop does not test the badge text: every
    pass that completes reads an order number and writes one image and two
    PDFs named after it, the plain receipt and the one stamped with the
    image.  So over an order table that is processed to the end the order
    numbers read are one per row, the images written are exactly their
    [robot_<n>.png], in order, the PDFs written are exactly their
    [receipt_<n>.pdf] and [receipt_<n>_with_robot_image.pdf], in order, and
    all these files are there when the loop ends: as many image and
    stamped-receipt pairs as rows, and twice as many PDFs. *)
Theorem receipts_per_processed_order (E : env) (orders : list order_row)
    (w w' : world) :
  fill_the_form_and_store_receipts E orders w = (Ok tt, w') →
  ∃ t,
    trace w' = trace w ++ t ∧
    List.length (order_numbers_read E (trace w) t) = List.length orders ∧
    images_written t = image_path <$> order_numbers_read E (trace w) t ∧
    pdfs_written t =
      order_numbers_read E (trace w) t ≫= (λ n, [pdf_path n; stamped_pdf_path n]) ∧
    List.length (images_written t) = List.length orders ∧
    List.length (pdfs_written t) = 2 * List.length orders ∧
    ∀ n, n ∈ order_numbers_read E (trace w) t →
         is_file (fs w') (image_path n) ∧
         is_file (fs w') (pdf_path n) ∧
         is_file (fs w') (stamped_pdf_path n).
Proof.
  intros H.
  apply loop_Ok_inv in H as (t & Ht & Hlen & Hi & Hp & Hfiles & _).
  exists t. repeat (split; [done|]).
  split; [by rewrite Hi, length_fmap|].
  split; [|done].
  rewrite Hp, <- Hlen. clear.
  induction (order_numbers_read E (trace w) t) as [|n ids IH]; [done|].
  change (List.length (pdf_path n :: stamped_pdf_path n ::
            (ids ≫= λ n, [pdf_path n; stamped_pdf_path n]))
          = 2 * S (List.length ids)).
  simpl List.length. rewrite IH. lia.
Qed.

(** C3 as stated fails: one order, submitted at the first click and given a
    badge text, leaves two PDFs under [temp/receipts] next to its one
    image; and an order whose badge is empty gets its image and its two
    PDFs all the same. *)
Lemma one_order_two_pdfs :
  (fill_the_form_and_store_receipts env_ok [row8] w_empty).1 = Ok tt ∧
  images_written (trace (fill_the_form_and_store_receipts env_ok [row8] w_empty).2)
  = ["temp/receipts_images/robot_RSB-ROBO-ORDER-11.png"] ∧
  pdfs_written (trace (fill_the_form_and_store_receipts env_ok [row8] w_empty).2)
  = ["temp/receipts/receipt_RSB-ROBO-ORDER-11.pdf";
     "temp/receipts/receipt_RSB-ROBO-ORDER-11_with_robot_image.pdf"] ∧
  List.length
    (list_files_in_directory
       (fs (fill_the_form_and_store_receipts env_ok [row8] w_empty).2)
       "temp/receipts" true "*.pdf") = 2 ∧
  List.length
    (list_files_in_directory
       (fs (fill_the_form_and_store_receipts env_ok [row8] w_empty).2)
       "temp/receipts_images" true "*.png") = 1 ∧
  (fill_the_form_and_store_receipts env_blank_badge [row8] w_empty).1 = Ok tt ∧
  order_numbers_read env_blank_badge []
    (trace (fill_the_form_and_store_receipts env_blank_badge [row8] w_empty).2) = [""] ∧
  pdfs_written
    (trace (fill_the_form_and_store_receipts env_blank_badge [row8] w_empty).2)
  = ["temp/receipts/receipt_.pdf"; "temp/receipts/receipt__with_robot_image.pdf"].
Proof. repeat split; vm_compute; reflexivity. Qed.


(** X14: a pass of the loop that completes has recorded exactly the calls
    of the source, in order, with [k + 1] rounds of the retry helper; the
    order number [n] is the text the badge gave and [html] the inner HTML
    the receipt gave, and afterwards the three files of [n] hold what the
    source wires together: the screenshot of the preview, the PDF of
    [html], and the stamped PDF made from exactly that PDF and that
    screenshot. *)
Theorem completed_pass_leaves_its_three_files (E : env) (row : order_row)
    (w w1 : world) :
  process_order E row w = (Ok tt, w1) →
  ∃ k n html,
    k < recursion_limit E ∧
    n = text E (trace w ++ pass_until_badge row k) ∧
    html = text E (trace w ++ pass_until_badge row k ++
                   [Screenshot "//div[@id='robot-preview-image']" (image_path n);
                    InnerHtml "//div[@id='receipt']"]) ∧
    trace w1 = trace w ++ pass_until_badge row k ++ pass_after_badge n html ∧
    fs w1 !! image_path n = Some (File (PngOf "//div[@id='robot-preview-image']")) ∧
    fs w1 !! pdf_path n = Some (File (PdfOf html)) ∧
    fs w1 !! stamped_pdf_path n
    = Some (File (PdfStamped (pdf_path n) (image_path n))).
Proof.
  intros H.
  apply process_order_Ok_inv in H
    as (k & n & html & Hk & Hn & Hh & Ht & Hf1 & Hf2 & Hf3 & _).
  exists k, n, html. done.
Qed.

(** ** When the fetch fails or the table is empty *)

(** X15: whatever makes [get_orders] raise (the GET itself, a 4xx or 5xx
    status, the parse), the task ends with that same exception after
    [cleanup], without any browser call and without a new or changed
    file. *)
Theorem fetch_failure_stops_the_task (E : env) (w w1 : world) (e : exn) :
  get_orders E w = (Raise e, w1) →
  ∃ w' t,
    order_robots_from_RobotSpareBin E w = (Raise e, w') ∧
    trace w' = trace w ++ t ∧
    Forall (λ ev, is_browser_event ev = false) t ∧
    fs w' ⊆ fs w.
Proof.
  intros Hg.
  assert (Hb : order_robots_body E w = (Raise e, w1)).
  { unfold order_robots_body. by rewrite bind_run, Hg. }
  assert (Hw1 : fs w1 = fs w ∧ ∃ t1, trace w1 = trace w ++ t1 ∧
                                  Forall (λ ev, is_browser_event ev = false) t1).
  { revert Hg. rewrite get_orders_run.
    destruct (faults E _).
    { intros [= _ <-]. split; [done|]. eexists. split; [done|]. by forall_list idtac. }
    destruct (_ && _).
    { intros [= _ <-]. split; [done|]. eexists. split; [done|]. by forall_list idtac. }
    destruct (faults E _); [|discriminate].
    intros [= _ <-]. split; [done|]. eexists. split; [done|]. by forall_list idtac. }
  destruct Hw1 as (Hfs & t1 & Ht1 & HP1).
  destruct (cleanup_events E w1) as (t & Ht & HP & Hsub).
  exists (cleanup E w1).2, (t1 ++ t).
  rewrite task_run, Hb. simpl fst. simpl snd. split_and!.
  - done.
  - by rewrite Ht, Ht1, app_assoc.
  - by apply Forall_app.
  - by rewrite <- Hfs.
Qed.

(** X16: with an order table of zero rows and no PDF receipt on disk, the
    [try] block ends in the archive's [ValueError] right after the archive
    call, having changed nothing in the file system; no ZIP is written. *)
Theorem empty_table_fails_in_archive (E : env) (w : world) :
  csv_rows E = [] →
  ¬ (400 ≤ http_status E < 600)%Z →
  faults E (trace w ++ [HttpGet CSV_URL]) = None →
  faults E (trace w ++ [HttpGet CSV_URL; ReadCsv]) = None →
  faults E (trace w ++ [HttpGet CSV_URL; ReadCsv; archive_call]) = None →
  (∀ p, is_file (fs w) p → ¬ receipt_pdf p) →
  order_robots_body E w =
  (Raise (ValueError "No files found to archive"),
   extend w [HttpGet CSV_URL; ReadCsv; archive_call]).
Proof.
  intros Hrows Hs Hf1 Hf2 Hf3 Hnone.
  unfold order_robots_body. rewrite bind_run, get_orders_run, Hf1, Hf2.
  replace ((400 <=? http_status E) && (http_status E <? 600))%Z with false.
  2:{ symmetry. apply andb_false_iff.
      destruct (Z.leb_spec 400 (http_status E)); [right|by left].
      apply Z.ltb_ge. lia. }
  rewrite Hrows. unfold fill_the_form_and_store_receipts. simpl for_each.
  rewrite bind_run, ret_run. cbv beta iota.
  rewrite archive_receipts_run, trace_extend, <- app_assoc. simpl app.
  rewrite Hf3, fs_extend.
  destruct (list_files_in_directory _ _ _ _) as [|p0 l] eqn:Hl.
  { by rewrite extend_extend. }
  exfalso. assert (Hp0 : p0 ∈ list_files_in_directory (fs w) "temp/receipts" true "*.pdf").
  { rewrite Hl. by left. }
  apply elem_of_list_files in Hp0 as (d & Hd & Hr).
  apply receipt_pdf_listed in Hr. apply (Hnone p0); [by exists d|done].
Qed.

(** ** The further theorems at concrete inputs *)

Lemma loop_stops_at_first_failure_witness :
  fill_the_form_and_store_receipts env_second_stuck
    ([row8_parsed] ++ row8 :: [row8_parsed]) w_empty
  = (Raise RecursionError,
     (process_order env_second_stuck row8
        (fill_the_form_and_store_receipts env_second_stuck [row8_parsed] w_empty).2).2).
Proof.
  apply (loop_stops_at_first_failure env_second_stuck [row8_parsed] row8
           [row8_parsed] w_empty
           (fill_the_form_and_store_receipts env_second_stuck [row8_parsed] w_empty).2).
  - apply pair_eta_fst. vm_compute. reflexivity.
  - apply pair_eta_fst. vm_compute. reflexivity.
Defined.

Lemma partial_batch_is_never_archived_witness :
  ∃ w' t,
    order_robots_from_RobotSpareBin env_second_stuck w_empty
    = (Raise RecursionError, w') ∧
    trace w' = trace w_empty ++ t ∧
    Forall (λ ev, ev ≠ archive_call) t ∧
    fs w' !! "output/receipts.zip" = fs w_empty !! "output/receipts.zip".
Proof.
  apply (partial_batch_is_never_archived env_second_stuck w_empty
           (extend w_empty [HttpGet CSV_URL; ReadCsv])
           (fill_the_form_and_store_receipts env_second_stuck
              (csv_rows env_second_stuck)
              (extend w_empty [HttpGet CSV_URL; ReadCsv])).2
           (csv_rows env_second_stuck)).
  - vm_compute. reflexivity.
  - apply pair_eta_fst. vm_compute. reflexivity.
Defined.


Lemma receipts_per_processed_order_witness :
  ∃ t,
    trace (fill_the_form_and_store_receipts env_ok two_orders w_empty).2
    = trace w_empty ++ t ∧
    List.length (order_numbers_read env_ok (trace w_empty) t)
    = List.length two_orders ∧
    images_written t = image_path <$> order_numbers_read env_ok (trace w_empty) t ∧
    pdfs_written t =
      order_numbers_read env_ok (trace w_empty) t
        ≫= (λ n, [pdf_path n; stamped_pdf_path n]) ∧
    List.length (images_written t) = List.length two_orders ∧
    List.length (pdfs_written t) = 2 * List.length two_orders ∧
    ∀ n, n ∈ order_numbers_read env_ok (trace w_empty) t →
         is_file (fs (fill_the_form_and_store_receipts env_ok two_orders w_empty).2)
           (image_path n) ∧
         is_file (fs (fill_the_form_and_store_receipts env_ok two_orders w_empty).2)
           (pdf_path n) ∧
         is_file (fs (fill_the_form_and_store_receipts env_ok two_orders w_empty).2)
           (stamped_pdf_path n).
Proof.
  apply (receipts_per_processed_order env_ok two_orders w_empty).
  apply pair_eta_fst. vm_compute. reflexivity.
Defined.


Lemma completed_pass_leaves_its_three_files_witness :
  ∃ k n html,
    k < recursion_limit env_ok ∧
    n = text env_ok (trace w_empty ++ pass_until_badge row8 k) ∧
    html = text env_ok
             (trace w_empty ++ pass_until_badge row8 k ++
              [Screenshot "//div[@id='robot-preview-image']" (image_path n);
               InnerHtml "//div[@id='receipt']"]) ∧
    trace (process_order env_ok row8 w_empty).2
    = trace w_empty ++ pass_until_badge row8 k ++ pass_after_badge n html ∧
    fs (process_order env_ok row8 w_empty).2 !! image_path n
    = Some (File (PngOf "//div[@id='robot-preview-image']")) ∧
    fs (process_order env_ok row8 w_empty).2 !! pdf_path n
    = Some (File (PdfOf html)) ∧
    fs (process_order env_ok row8 w_empty).2 !! stamped_pdf_path n
    = Some (File (PdfStamped (pdf_path n) (image_path n))).
Proof.
  apply (completed_pass_leaves_its_three_files env_ok row8 w_empty).
  apply pair_eta_fst. vm_compute. reflexivity.
Defined.

Lemma retry_returns_after_alert_clears_witness :
  ∃ k, k < 10 ∧
       (click_order_button_with_retry env_three_alerts 10 (RowSeries row8) 0 w_empty).2
       = extend w_empty (retry_rounds (S k)) ∧
       visible env_three_alerts
         (trace (click_order_button_with_retry env_three_alerts 10
                   (RowSeries row8) 0 w_empty).2) = false ∧
       ∀ j, j < k →
            visible env_three_alerts (trace w_empty ++ retry_rounds (S j)) = true.
Proof.
  apply (retry_returns_after_alert_clears env_three_alerts 10 (RowSeries row8) 0).
  - unfold MAX_RETRIES. lia.
  - apply pair_eta_fst. vm_compute. reflexivity.
Defined.

Lemma retry_over_bound_clicks_once_witness :
  click_order_button_with_retry env_stuck 1 (RowSeries row8) 4 w_empty =
  (Ok tt, extend w_empty [Click order_button; Log ERROR (FailedClick (RowSeries row8))]).
Proof.
  apply (retry_over_bound_clicks_once env_stuck 0 (RowSeries row8) 4 w_empty).
  - unfold MAX_RETRIES. lia.
  - reflexivity.
Defined.

Lemma fetch_failure_stops_the_task_witness :
  ∃ w' t,
    order_robots_from_RobotSpareBin env_500 w_empty = (Raise (HTTPError 500), w') ∧
    trace w' = trace w_empty ++ t ∧
    Forall (λ ev, is_browser_event ev = false) t ∧
    fs w' ⊆ fs w_empty.
Proof.
  apply (fetch_failure_stops_the_task env_500 w_empty (extend w_empty [HttpGet CSV_URL])).
  vm_compute. reflexivity.
Defined.

Lemma empty_table_fails_in_archive_witness :
  order_robots_body env_no_rows w_empty =
  (Raise (ValueError "No files found to archive"),
   extend w_empty [HttpGet CSV_URL; ReadCsv; archive_call]).
Proof.
  apply (empty_table_fails_in_archive env_no_rows w_empty).
  - reflexivity.
  - simpl. lia.
  - reflexivity.
  - reflexivity.
  - reflexivity.
  - intros p [d Hd]. vm_compute in Hd. discriminate Hd.
Defined.
